(** * leptos-image: a shallow embedding of the cache-key codec, the
    derivative store and the route introspection of [src/src/optimizer.rs],
    [src/src/routes.rs] and [src/src/introspect.rs].

    Strings are byte strings: a Rocq [string] whose [ascii] characters are
    the bytes of the UTF-8 encoding of the Rust [String]. *)

From Stdlib Require Import String Ascii List Bool ZArith NArith Lia ZifyN.
Import ListNotations.
Open Scope list_scope.
Open Scope string_scope.

(** ** Byte-string helpers (Rust [str] methods) *)

Definition slash : ascii := "/"%char.
Definition dquote : ascii := "034"%char.
Definition newline : ascii := "010"%char.

Definition byte (c : ascii) : N := N_of_ascii c.

Definition ascii_eqb (a b : ascii) : bool :=
  if ascii_dec a b then true else false.

(** [str::split(sep)]: [n] separators give [n + 1] pieces. *)
Fixpoint split_on (sep : ascii) (s : string) : list string :=
  match s with
  | EmptyString => [EmptyString]
  | String c r =>
      let rest := split_on sep r in
      if ascii_eqb c sep then EmptyString :: rest
      else match rest with
           | x :: xs => String c x :: xs
           | [] => [String c EmptyString]
           end
  end.

(** The inverse of [split_on]: the pieces joined by the separator. *)
Definition join (sep : ascii) (l : list string) : string :=
  String.concat (String sep EmptyString) l.

(** [str::trim_start_matches(c)] *)
Fixpoint trim_start_matches (c : ascii) (s : string) : string :=
  match s with
  | String d r => if ascii_eqb d c then trim_start_matches c r else s
  | EmptyString => EmptyString
  end.

(** [str::trim_end_matches(c)] *)
Fixpoint trim_end_matches (c : ascii) (s : string) : string :=
  match s with
  | EmptyString => EmptyString
  | String d r =>
      let r' := trim_end_matches c r in
      match r' with
      | EmptyString => if ascii_eqb d c then EmptyString else String d EmptyString
      | _ => String d r'
      end
  end.

Definition starts_with_char (c : ascii) (s : string) : bool :=
  match s with String d _ => ascii_eqb d c | EmptyString => false end.

Fixpoint ends_with_char (c : ascii) (s : string) : bool :=
  match s with
  | EmptyString => false
  | String d EmptyString => ascii_eqb d c
  | String _ r => ends_with_char c r
  end.

Definition is_emptyb (s : string) : bool :=
  match s with EmptyString => true | _ => false end.

(** [str::starts_with(prefix)] *)
Definition starts_with (p s : string) : bool := String.prefix p s.

(** ** Rust [std::path::PathBuf] on Unix *)

(** [PathBuf::push]: an absolute argument replaces the buffer; otherwise a
    separator is inserted unless the buffer is empty or already ends in
    one. *)
Definition pathbuf_push (buf s : string) : string :=
  if starts_with_char slash s then s
  else if is_emptyb buf then s
  else if ends_with_char slash buf then buf ++ s
  else buf ++ String slash s.

(** [path_from_segments] (optimizer.rs 339-347): each segment is trimmed of
    leading and trailing ['/'], empty segments are dropped and the rest are
    collected into a [PathBuf] (successive [push]es). *)
Definition path_from_segments (segments : list string) : string :=
  fold_left pathbuf_push
    (filter (fun s => negb (is_emptyb s))
       (map (fun s => trim_end_matches slash (trim_start_matches slash s))
          segments))
    EmptyString.

(** [Path::file_stem] of a file name: the part before the last ['.'],
    unless that dot is the first byte. *)
Fixpoint last_dot_aux (i : nat) (s : string) (acc : option nat) : option nat :=
  match s with
  | EmptyString => acc
  | String c r =>
      last_dot_aux (S i) r (if ascii_eqb c "."%char then Some i else acc)
  end.

Definition file_stem_of_name (name : string) : string :=
  if String.eqb name ".." then name
  else match last_dot_aux 0 name None with
       | None | Some O => name
       | Some i => substring 0 i name
       end.

(** [PathBuf::set_extension] on Unix.  The path is read as its ['/']
    pieces, from the right: empty pieces and ["."] are skipped by
    [components()], a [".."] component has no file name (nothing changes),
    and a normal component is the file name: the buffer is truncated right
    after its stem and ["." ++ ext] is appended. *)
Fixpoint set_ext_rev (ext : string) (rpieces : list string) : option (list string) :=
  match rpieces with
  | [] => None
  | q :: rest =>
      if String.eqb q "" || String.eqb q "." then set_ext_rev ext rest
      else if String.eqb q ".." then None
      else Some ((file_stem_of_name q ++
                  (if is_emptyb ext then "" else String "."%char ext)) :: rest)
  end.

Definition set_extension (path ext : string) : string :=
  match set_ext_rev ext (rev (split_on slash path)) with
  | None => path
  | Some rp => join slash (rev rp)
  end.

(** ** Decimal formatting and parsing of unsigned integers *)

Definition digit_char (d : N) : ascii := ascii_of_N (48 + d).

Fixpoint dec_aux (fuel : nat) (n : N) (acc : string) : string :=
  match fuel with
  | O => acc
  | S f =>
      let acc' := String (digit_char (n mod 10)) acc in
      if (n <? 10)%N then acc' else dec_aux f (n / 10) acc'
  end.

(** [Display] of [u8] / [u32]: decimal digits, no leading zeros. *)
Definition to_dec (n : N) : string := dec_aux (S (N.to_nat (N.size n))) n "".

Definition is_digit (c : ascii) : bool :=
  ((48 <=? byte c) && (byte c <=? 57))%N.

Fixpoint digits_val (acc : N) (s : string) : option N :=
  match s with
  | EmptyString => Some acc
  | String c r =>
      if is_digit c then digits_val (acc * 10 + (byte c - 48)) r else None
  end.

(** [uN::from_str]: an optional ['+'], then at least one decimal digit,
    and a value below [2 ^ bits]. *)
Definition parse_uint (bits : N) (s : string) : option N :=
  let body := match s with
              | String c r => if ascii_eqb c "+"%char then r else s
              | EmptyString => s
              end in
  match body with
  | EmptyString => None
  | _ => match digits_val 0 body with
         | Some v => if (v <? 2 ^ bits)%N then Some v else None
         | None => None
         end
  end.

(** ** Percent encoding as used by [serde_qs] *)

Definition is_alnum (c : ascii) : bool :=
  let b := byte c in
  ((48 <=? b) && (b <=? 57) || (65 <=? b) && (b <=? 90)
   || (97 <=? b) && (b <=? 122))%N.

(** [QS_ENCODE_SET]: everything but alphanumerics and [' ' '*' '-' '.' '_']
    is percent-encoded; a space is then written ['+']. *)
Definition qs_keep (c : ascii) : bool :=
  is_alnum c || ascii_eqb c " "%char || ascii_eqb c "*"%char
  || ascii_eqb c "-"%char || ascii_eqb c "."%char || ascii_eqb c "_"%char.

Definition hex_upper (d : N) : ascii :=
  if (d <? 10)%N then ascii_of_N (48 + d) else ascii_of_N (55 + d).

Definition from_hex (c : ascii) : option N :=
  let b := byte c in
  if ((48 <=? b) && (b <=? 57))%N then Some (b - 48)%N
  else if ((65 <=? b) && (b <=? 70))%N then Some (b - 55)%N
  else if ((97 <=? b) && (b <=? 102))%N then Some (b - 87)%N
  else None.

Definition qs_encode_char (c : ascii) : string :=
  if qs_keep c then (if ascii_eqb c " "%char then "+" else String c "")
  else String "%"%char (String (hex_upper (byte c / 16))
                          (String (hex_upper (byte c mod 16)) "")).

Fixpoint qs_encode_value (s : string) : string :=
  match s with
  | EmptyString => ""
  | String c r => qs_encode_char c ++ qs_encode_value r
  end.

(** Decoding: ['+'] is a space, ['%'] and two hex digits is a byte, any
    other ['%'] stays as it is. *)
Fixpoint percent_decode (s : string) : string :=
  match s with
  | EmptyString => ""
  | String c r =>
      if ascii_eqb c "+"%char then String " "%char (percent_decode r)
      else if ascii_eqb c "%"%char then
        match r with
        | String h1 (String h2 r') =>
            match from_hex h1, from_hex h2 with
            | Some a, Some b => String (ascii_of_N (a * 16 + b)) (percent_decode r')
            | _, _ => String c (percent_decode r)
            end
        | _ => String c (percent_decode r)
        end
      else String c (percent_decode r)
  end.

(** ** [String::from_utf8]: UTF-8 well-formedness (Unicode table 3-7) *)

Definition in_range (lo hi : N) (c : ascii) : bool :=
  ((lo <=? byte c) && (byte c <=? hi))%N.

Definition cont (c : ascii) : bool := in_range 128 191 c.

Fixpoint utf8_valid (s : string) : bool :=
  match s with
  | EmptyString => true
  | String c r =>
      let b := byte c in
      if (b <? 128)%N then utf8_valid r
      else if in_range 194 223 c then
        match r with
        | String c1 r1 => cont c1 && utf8_valid r1
        | _ => false
        end
      else if in_range 224 239 c then
        match r with
        | String c1 (String c2 r2) =>
            (if (b =? 224)%N then in_range 160 191 c1
             else if (b =? 237)%N then in_range 128 159 c1
             else cont c1) && cont c2 && utf8_valid r2
        | _ => false
        end
      else if in_range 240 244 c then
        match r with
        | String c1 (String c2 (String c3 r3)) =>
            (if (b =? 240)%N then in_range 144 191 c1
             else if (b =? 244)%N then in_range 128 143 c1
             else cont c1) && cont c2 && cont c3 && utf8_valid r3
        | _ => false
        end
      else false
  end.

Definition from_utf8 (s : string) : option string :=
  if utf8_valid s then Some s else None.

(** ** The cache key (optimizer.rs 238-276)

    [u32] and [u8] fields are [N]; a value of the Rust type is below
    [2 ^ 32] (resp. [2 ^ 8]), which [fields_in_range] states. *)

Record Resize := { r_width : N; r_height : N; r_quality : N }.

Record Blur := {
  b_width : N; b_height : N; b_svg_width : N; b_svg_height : N; b_sigma : N
}.

(** [enum CachedImageOption { Resize(Resize), Blur(Blur) }] *)
Inductive CachedImageOption :=
| OResize (r : Resize)
| OBlur (b : Blur).

(** [struct CachedImage { src, option }]; the field [option] is [opt]. *)
Record CachedImage := { src : string; opt : CachedImageOption }.

Definition fields_in_range (c : CachedImage) : Prop :=
  match opt c with
  | OResize r => (r_width r < 2 ^ 32 /\ r_height r < 2 ^ 32 /\ r_quality r < 2 ^ 8)%N
  | OBlur b => (b_width b < 2 ^ 32 /\ b_height b < 2 ^ 32 /\ b_svg_width b < 2 ^ 32
                /\ b_svg_height b < 2 ^ 32 /\ b_sigma b < 2 ^ 8)%N
  end.

(** ** [serde_qs] for [CachedImage]

    Serialization writes the fields in declaration order, nested keys as
    [option[r][w]] (variant renamed ["r"] / ["b"], fields renamed
    [w h q] / [w h sw sh s]), values percent-encoded, pairs joined by
    ['&']. *)

Definition option_fields (o : CachedImageOption) : list (string * list string * string) :=
  match o with
  | OResize r =>
      [("r", ["w"], to_dec (r_width r)); ("r", ["h"], to_dec (r_height r));
       ("r", ["q"], to_dec (r_quality r))]
  | OBlur b =>
      [("b", ["w"], to_dec (b_width b)); ("b", ["h"], to_dec (b_height b));
       ("b", ["sw"], to_dec (b_svg_width b)); ("b", ["sh"], to_dec (b_svg_height b));
       ("b", ["s"], to_dec (b_sigma b))]
  end.

Definition bracket (seg : string) : string := "[" ++ seg ++ "]".

Definition qs_to_string (c : CachedImage) : string :=
  join "&"%char
    (("src=" ++ qs_encode_value (src c))
     :: map (fun '(v, f, x) =>
               "option" ++ bracket v ++ String.concat "" (map bracket f) ++ "=" ++ x)
            (option_fields (opt c))).

Inductive QsError :=
| QsMalformedKey
| QsMissingField (name : string)
| QsMultipleValues
| QsInvalidValue
| QsUnknownVariant.

Inductive result (A E : Type) := Ok (a : A) | Err (e : E).
Arguments Ok {A E} a.
Arguments Err {A E} e.

Definition bind_result {A B E} (m : result A E) (k : A -> result B E) : result B E :=
  match m with Ok a => k a | Err e => Err e end.

Notation "x <- m ;; k" := (bind_result m (fun x => k))
  (at level 61, m at next level, right associativity).

Definition ok_of {A E} (m : result A E) : option A :=
  match m with Ok a => Some a | Err _ => None end.

(** Key syntax: [name[seg][seg]...]; [cur] is the segment being read. *)
Fixpoint parse_brackets (s : string) (cur : option string) : option (list string) :=
  match s, cur with
  | EmptyString, None => Some []
  | EmptyString, Some _ => None
  | String c r, None =>
      if ascii_eqb c "["%char then parse_brackets r (Some "") else None
  | String c r, Some seg =>
      if ascii_eqb c "]"%char then
        match parse_brackets r None with
        | Some segs => Some (seg :: segs)
        | None => None
        end
      else if ascii_eqb c "["%char then None
      else parse_brackets r (Some (seg ++ String c ""))
  end.

Fixpoint parse_key (s : string) (name : string) : option (list string) :=
  match s with
  | EmptyString => Some [name]
  | String c r =>
      if ascii_eqb c "["%char then
        match parse_brackets s None with
        | Some segs => Some (name :: segs)
        | None => None
        end
      else if ascii_eqb c "]"%char then None
      else parse_key r (name ++ String c "")
  end.

(** A pair [key=value]: split at the first ['='] (no ['='] means an empty
    value); key segments and the value are percent-decoded. *)
Fixpoint split_first (sep : ascii) (s : string) : string * option string :=
  match s with
  | EmptyString => ("", None)
  | String c r =>
      if ascii_eqb c sep then ("", Some r)
      else let '(a, b) := split_first sep r in (String c a, b)
  end.

Definition parse_pair (p : string) : result (list string * string) QsError :=
  let '(k, v) := split_first "="%char p in
  match parse_key k "" with
  | Some path =>
      Ok (map percent_decode path,
          percent_decode (match v with Some x => x | None => "" end))
  | None => Err QsMalformedKey
  end.

Fixpoint parse_pairs (ps : list string) : result (list (list string * string)) QsError :=
  match ps with
  | [] => Ok []
  | p :: rest =>
      if is_emptyb p then parse_pairs rest
      else kv <- parse_pair p ;; kvs <- parse_pairs rest ;; Ok (kv :: kvs)
  end.

Fixpoint path_eqb (a b : list string) : bool :=
  match a, b with
  | [], [] => true
  | x :: xs, y :: ys => String.eqb x y && path_eqb xs ys
  | _, _ => false
  end.

Fixpoint path_prefixb (a b : list string) : bool :=
  match a, b with
  | [], _ => true
  | x :: xs, y :: ys => String.eqb x y && path_prefixb xs ys
  | _, [] => false
  end.

(** A scalar field: exactly one value at its path and no nested key below
    it. *)
Definition get_one (kvs : list (list string * string)) (path : list string)
  : result string QsError :=
  if existsb (fun kv => path_prefixb path (fst kv) && negb (path_eqb path (fst kv))) kvs
  then Err QsInvalidValue
  else match map snd (filter (fun kv => path_eqb path (fst kv)) kvs) with
       | [v] => Ok v
       | [] => Err (QsMissingField (last path ""))
       | _ => Err QsMultipleValues
       end.

Definition get_uint (bits : N) (kvs : list (list string * string)) (path : list string)
  : result N QsError :=
  v <- get_one kvs path ;;
  match parse_uint bits v with Some n => Ok n | None => Err QsInvalidValue end.

Fixpoint nodup_strings (l : list string) : list string :=
  match l with
  | [] => []
  | x :: xs => let r := nodup_strings xs in
               if existsb (String.eqb x) r then r else x :: r
  end.

(** The externally tagged enum: the map under [option] has exactly one
    key, the variant name. *)
Definition option_variants (kvs : list (list string * string)) : list string :=
  nodup_strings
    (flat_map (fun kv => match fst kv with
                         | k :: v :: _ => if String.eqb k "option" then [v] else []
                         | _ => []
                         end) kvs).

Definition deserialize_option (kvs : list (list string * string))
  : result CachedImageOption QsError :=
  if existsb (fun kv => path_eqb ["option"] (fst kv)) kvs then Err QsInvalidValue
  else match option_variants kvs with
  | [] => Err (QsMissingField "option")
  | [v] =>
      if String.eqb v "r" then
        w <- get_uint 32 kvs ["option"; "r"; "w"] ;;
        h <- get_uint 32 kvs ["option"; "r"; "h"] ;;
        q <- get_uint 8 kvs ["option"; "r"; "q"] ;;
        Ok (OResize {| r_width := w; r_height := h; r_quality := q |})
      else if String.eqb v "b" then
        w <- get_uint 32 kvs ["option"; "b"; "w"] ;;
        h <- get_uint 32 kvs ["option"; "b"; "h"] ;;
        sw <- get_uint 32 kvs ["option"; "b"; "sw"] ;;
        sh <- get_uint 32 kvs ["option"; "b"; "sh"] ;;
        s <- get_uint 8 kvs ["option"; "b"; "s"] ;;
        Ok (OBlur {| b_width := w; b_height := h; b_svg_width := sw;
                     b_svg_height := sh; b_sigma := s |})
      else Err QsUnknownVariant
  | _ => Err QsUnknownVariant
  end.

(** [serde_qs::from_str::<CachedImage>]; unknown top-level keys are
    ignored. *)
Definition qs_from_str (s : string) : result CachedImage QsError :=
  kvs <- parse_pairs (split_on "&"%char s) ;;
  sv <- get_one kvs ["src"] ;;
  sv' <- match from_utf8 sv with Some x => Ok x | None => Err QsInvalidValue end ;;
  o <- deserialize_option kvs ;;
  Ok {| src := sv'; opt := o |}.

(** ** [base64::engine::general_purpose::STANDARD]

    Alphabet [A-Z a-z 0-9 + /], padding ['='] written on encode and
    required (canonical) on decode, non-zero trailing bits rejected. *)

Definition b64_char (n : N) : ascii :=
  if (n <? 26)%N then ascii_of_N (65 + n)
  else if (n <? 52)%N then ascii_of_N (71 + n)
  else if (n <? 62)%N then ascii_of_N (n - 4)
  else if (n =? 62)%N then "+"%char
  else "/"%char.

Definition b64_index (c : ascii) : option N :=
  let b := byte c in
  if ((65 <=? b) && (b <=? 90))%N then Some (b - 65)%N
  else if ((97 <=? b) && (b <=? 122))%N then Some (b - 71)%N
  else if ((48 <=? b) && (b <=? 57))%N then Some (b + 4)%N
  else if (b =? 43)%N then Some 62%N
  else if (b =? 47)%N then Some 63%N
  else None.

Definition pad : ascii := "="%char.

Fixpoint b64_encode (s : string) : string :=
  match s with
  | String a (String b (String c r)) =>
      let x := byte a in let y := byte b in let z := byte c in
      String (b64_char (x / 4))
        (String (b64_char ((x mod 4) * 16 + y / 16))
           (String (b64_char ((y mod 16) * 4 + z / 64))
              (String (b64_char (z mod 64)) (b64_encode r))))
  | String a (String b EmptyString) =>
      let x := byte a in let y := byte b in
      String (b64_char (x / 4))
        (String (b64_char ((x mod 4) * 16 + y / 16))
           (String (b64_char ((y mod 16) * 4)) (String pad EmptyString)))
  | String a EmptyString =>
      let x := byte a in
      String (b64_char (x / 4))
        (String (b64_char ((x mod 4) * 16)) (String pad (String pad EmptyString)))
  | EmptyString => EmptyString
  end.

Definition obind {A B} (m : option A) (k : A -> option B) : option B :=
  match m with Some a => k a | None => None end.

Fixpoint b64_decode (s : string) : option string :=
  match s with
  | EmptyString => Some EmptyString
  | String c1 (String c2 (String c3 (String c4 r))) =>
      obind (b64_index c1) (fun i1 =>
      obind (b64_index c2) (fun i2 =>
      if ascii_eqb c3 pad then
        (* a final [xx==] quad: one byte *)
        if ascii_eqb c4 pad && is_emptyb r && (i2 mod 16 =? 0)%N
        then Some (String (ascii_of_N (i1 * 4 + i2 / 16)) EmptyString)
        else None
      else
        obind (b64_index c3) (fun i3 =>
        if ascii_eqb c4 pad then
          (* a final [xxx=] quad: two bytes *)
          if is_emptyb r && (i3 mod 4 =? 0)%N
          then Some (String (ascii_of_N (i1 * 4 + i2 / 16))
                       (String (ascii_of_N ((i2 mod 16) * 16 + i3 / 4)) EmptyString))
          else None
        else
          obind (b64_index c4) (fun i4 =>
          obind (b64_decode r) (fun rest =>
            Some (String (ascii_of_N (i1 * 4 + i2 / 16))
                    (String (ascii_of_N ((i2 mod 16) * 16 + i3 / 4))
                       (String (ascii_of_N ((i3 mod 4) * 64 + i4)) rest))))))))
  | _ => None
  end.

(** ** The two codecs of [CachedImage] (optimizer.rs 290-337) *)

(** [get_url_encoded(handler_path)]: [format!("{}?{}", handler_path, params)]. *)
Definition get_url_encoded (c : CachedImage) (handler_path : string) : string :=
  handler_path ++ "?" ++ qs_to_string c.

(** [from_url_encoded]: the last ['?']-separated piece is parsed. *)
Definition from_url_encoded (url : string) : result CachedImage QsError :=
  let url' := last (filter (fun s => negb (String.eqb s "?")) (split_on "?"%char url)) url in
  qs_from_str url'.

Definition extension_of (o : CachedImageOption) : string :=
  match o with OResize _ => "webp" | OBlur _ => "svg" end.

(** [get_file_path] (optimizer.rs 129-146 and 297-314, the same body):
    [cache/image/<base64 of the query string>/<src>], extension set to
    [webp] or [svg]. *)
Definition get_file_path (c : CachedImage) : string :=
  let encode := b64_encode (qs_to_string c) in
  let path := path_from_segments ["cache/image"; encode; src c] in
  set_extension path (extension_of (opt c)).

Fixpoint find_map {A B} (f : A -> option B) (l : list A) : option B :=
  match l with
  | [] => None
  | x :: xs => match f x with Some y => Some y | None => find_map f xs end
  end.

(** [from_file_path]: the first ['/']-separated segment that base64-decodes
    to UTF-8 text that parses as a [CachedImage]. *)
Definition from_file_path (path : string) : option CachedImage :=
  find_map (fun s => obind (b64_decode s) (fun bytes =>
                     obind (from_utf8 bytes) (fun encoded =>
                     ok_of (qs_from_str encoded))))
           (split_on slash path).

(** ** The derivative store (optimizer.rs 80-236)

    The image, resize and WebP crates are outside this repository; they are
    taken as given functions, so the store is modelled for every choice of
    them.  [webp_encode] returning [None] is [Encoder::from_image] failing,
    whose [unwrap()] panics. *)

Inductive FilterType := CatmullRom | Nearest.

Record ImageLib := {
  img : Type;
  decode_image : string -> option img;
  resize_image : img -> N -> N -> FilterType -> img;
  webp_encode : img -> N -> option string
}.

Inductive CreateImageError := ImageError | JoinError | IOError.

Inductive Event :=
| EvAcquire
| EvRelease
| EvTransformStart (save_path : string)
| EvTransformEnd (save_path : string).

(** The process and disk state: the regular files (path, bytes), the
    directories made by [create_dir_all], the free space on the disk, the
    permits left in the semaphore, a trace of events, and the paths where
    the operating system refuses to create an entry ([EACCES], [EROFS]).
    Paths are relative, as every path the optimizer builds is. *)
Record World := {
  files : list (string * string);
  dirs : list string;
  free_space : nat;
  permits : nat;
  events : list Event;
  denied : string -> bool
}.

Definition set_files (w : World) (fs : list (string * string)) (free : nat) : World :=
  {| files := fs; dirs := dirs w; free_space := free; permits := permits w;
     events := events w; denied := denied w |}.

Definition add_dir (w : World) (d : string) : World :=
  {| files := files w; dirs := d :: dirs w; free_space := free_space w;
     permits := permits w; events := events w; denied := denied w |}.

Definition log (w : World) (es : list Event) : World :=
  {| files := files w; dirs := dirs w; free_space := free_space w; permits := permits w;
     events := events w ++ es; denied := denied w |}.

Fixpoint lookup_file (fs : list (string * string)) (p : string) : option string :=
  match fs with
  | [] => None
  | (q, d) :: rest => if String.eqb q p then Some d else lookup_file rest p
  end.

Definition is_file (w : World) (p : string) : bool :=
  match lookup_file (files w) p with Some _ => true | None => false end.

(** A directory: one that was made, or one with an entry below it. *)
Definition is_dir (w : World) (p : string) : bool :=
  existsb (String.eqb p) (dirs w)
  || existsb (fun q => String.prefix (p ++ "/") q) (map fst (files w) ++ dirs w).

(** [tokio::fs::metadata(path).is_ok()] and [Path::exists]: a file or a
    directory. *)
Definition file_exists (w : World) (p : string) : bool :=
  is_file w p || is_dir w p.

(** [ENAMETOOLONG]: a path of [PATH_MAX] (4096) bytes or more, or a
    component over [NAME_MAX] (255) bytes. *)
Definition name_too_long (p : string) : bool :=
  Nat.leb 4096 (String.length p)
  || existsb (fun q => Nat.ltb 255 (String.length q)) (split_on slash p).

(** [ENOTDIR]: a proper prefix of the path is a regular file. *)
Definition under_file (w : World) (p : string) : bool :=
  existsb (fun '(q, _) => String.prefix (q ++ "/") p) (files w).

Fixpoint drop_cur_rev (rpieces : list string) : list string :=
  match rpieces with
  | q :: rest => if String.eqb q "" || String.eqb q "." then drop_cur_rev rest else rpieces
  | [] => []
  end.

(** [Path::parent]: the last component (trailing ['/'] and ["."] pieces
    are not components) and the separators and ["."] pieces before it are
    removed; a path without components has no parent. *)
Definition parent (p : string) : option string :=
  match drop_cur_rev (rev (split_on slash p)) with
  | [] => None
  | _ :: rest => Some (join slash (rev (drop_cur_rev rest)))
  end.

(** [d] and its ancestors, outermost first, by [Path::parent]. *)
Fixpoint dir_chain (fuel : nat) (d : string) : list string :=
  match fuel with
  | O => [d]
  | S f =>
      match parent d with
      | Some q => if is_emptyb q then [d] else (dir_chain f q ++ [d])%list
      | None => [d]
      end
  end.

(** One [mkdir] whose parent is a directory fails: the path is a file
    ([EEXIST]), lies below a file ([ENOTDIR]), has a name too long, or the
    system refuses it. *)
Definition mkdir_fails (w : World) (d : string) : bool :=
  is_file w d || under_file w d || name_too_long d || denied w d.

Fixpoint mkdirs (w : World) (chain : list string) : result unit CreateImageError * World :=
  match chain with
  | [] => (Ok tt, w)
  | d :: rest =>
      if is_dir w d then mkdirs w rest
      else if mkdir_fails w d then (Err IOError, w)
      else mkdirs (add_dir w d) rest
  end.

(** [std::fs::create_dir_all]: nothing to do for [""]; a path of
    [PATH_MAX] bytes fails at once; nothing to do for an existing
    directory; otherwise the missing ancestors are made outermost first,
    and the first [mkdir] that fails ends it with the directories made so
    far left in place. *)
Definition create_dir_all (w : World) (d : string) : result unit CreateImageError * World :=
  if is_emptyb d then (Ok tt, w)
  else if Nat.leb 4096 (String.length d) then (Err IOError, w)
  else if is_dir w d then (Ok tt, w)
  else mkdirs w (dir_chain (length (split_on slash d)) d).

(** [create_nested_if_needed] (optimizer.rs 357-367). *)
Definition create_nested_if_needed (w : World) (path : string)
  : result unit CreateImageError * World :=
  match parent path with
  | Some p => if negb (file_exists w p) then create_dir_all w p else (Ok tt, w)
  | None => (Ok tt, w)
  end.

Definition update_file (fs : list (string * string)) (p d : string) :=
  (p, d) :: filter (fun '(q, _) => negb (String.eqb q p)) fs.

(** [File::create] fails: a name too long, a file on the way
    ([ENOTDIR]), a directory at the path ([EISDIR]), a missing parent
    directory ([ENOENT]), or refused by the system. *)
Definition create_fails (w : World) (p : string) : bool :=
  name_too_long p || under_file w p || is_dir w p || denied w p
  || match parent p with
     | Some d => negb (is_emptyb d || is_dir w d)
     | None => true
     end.

(** [std::fs::write]: [File::create] (which truncates), then [write_all];
    when the disk fills up the bytes written so far stay in the file. *)
Definition fs_write (w : World) (p data : string) : result unit CreateImageError * World :=
  if create_fails w p then (Err IOError, w)
  else if Nat.leb (String.length data) (free_space w) then
    (Ok tt, set_files w (update_file (files w) p data)
                      (free_space w - String.length data))
  else
    (Err IOError, set_files w (update_file (files w) p (substring 0 (free_space w) data)) 0).

Section Transform.
Variable L : ImageLib.

(** [image::open]: read and decode. *)
Definition open_image (w : World) (p : string) : option (img L) :=
  obind (lookup_file (files w) p) (decode_image L).

Definition dq : string := String dquote EmptyString.
Definition nl : string := String newline EmptyString.

(** The SVG document of [create_image_blur] (optimizer.rs 221-233). *)
Definition blur_svg (svg_width svg_height sigma : N) (uri : string) : string :=
  nl ++ join newline [
"<svg xmlns=" ++ dq ++ "http://www.w3.org/2000/svg" ++ dq ++ " xmlns:xlink=" ++ dq ++ "http://www.w3.org/1999/xlink" ++ dq ++ " width=" ++ dq ++ "100%" ++ dq ++ " height=" ++ dq ++ "100%" ++ dq ++ " viewBox=" ++ dq ++ "0 0 " ++ to_dec svg_width ++ " " ++ to_dec svg_height ++ dq ++ " preserveAspectRatio=" ++ dq ++ "none" ++ dq ++ ">";
"    <filter id=" ++ dq ++ "a" ++ dq ++ " filterUnits=" ++ dq ++ "userSpaceOnUse" ++ dq ++ " color-interpolation-filters=" ++ dq ++ "sRGB" ++ dq ++ "> ";
"        <feGaussianBlur stdDeviation=" ++ dq ++ to_dec sigma ++ dq ++ " edgeMode=" ++ dq ++ "duplicate" ++ dq ++ "/> ";
"        <feComponentTransfer>";
"            <feFuncA type=" ++ dq ++ "discrete" ++ dq ++ " tableValues=" ++ dq ++ "1 1" ++ dq ++ "/> ";
"        </feComponentTransfer> ";
"    </filter> ";
"    <image filter=" ++ dq ++ "url(#a)" ++ dq ++ " x=" ++ dq ++ "0" ++ dq ++ " y=" ++ dq ++ "0" ++ dq ++ " height=" ++ dq ++ "100%" ++ dq ++ " width=" ++ dq ++ "100%" ++ dq ++ " href=" ++ dq ++ uri ++ dq ++ "/>";
"</svg>"] ++ nl.

(** [create_image_blur]; [None] is a panic. *)
Definition create_image_blur (w : World) (source_path : string) (blur : Blur)
  : option (result string CreateImageError) :=
  match open_image w source_path with
  | None => Some (Err ImageError)
  | Some i =>
      let i' := resize_image L i (b_width blur) (b_height blur) Nearest in
      match webp_encode L i' 80 with
      | None => None
      | Some webp =>
          let encoded := b64_encode webp in
          let uri := "data:image/webp;base64," ++ encoded in
          Some (Ok (blur_svg (b_svg_width blur) (b_svg_height blur) (b_sigma blur) uri))
      end
  end.

(** [create_optimized_image]; [None] is a panic.  Both branches end with
    [create_nested_if_needed(&save_path)?] and [std::fs::write(..)?]. *)
Definition create_optimized_image (config : CachedImageOption)
  (source_path save_path : string) (w : World)
  : option (result unit CreateImageError) * World :=
  match config with
  | OResize r =>
      match open_image w source_path with
      | None => (Some (Err ImageError), w)
      | Some i =>
          let new_img := resize_image L i (r_width r) (r_height r) CatmullRom in
          match webp_encode L new_img (r_quality r) with
          | None => (None, w)
          | Some webp =>
              match create_nested_if_needed w save_path with
              | (Err e, w1) => (Some (Err e), w1)
              | (Ok _, w1) => let '(res, w2) := fs_write w1 save_path webp in (Some res, w2)
              end
          end
      end
  | OBlur b =>
      match create_image_blur w source_path b with
      | None => (None, w)
      | Some (Err e) => (Some (Err e), w)
      | Some (Ok svg) =>
          match create_nested_if_needed w save_path with
          | (Err e, w1) => (Some (Err e), w1)
          | (Ok _, w1) => let '(res, w2) := fs_write w1 save_path svg in (Some res, w2)
          end
      end
  end.

Record ImageOptimizer := { api_handler_path : string; root_file_path : string }.

(** [ImageOptimizer::get_file_path_from_root] *)
Definition get_file_path_from_root (o : ImageOptimizer) (c : CachedImage) : string :=
  path_from_segments [root_file_path o; get_file_path c].

(** The two paths [create_image] derives (optimizer.rs 94-97); the save
    path is the expression of [get_file_path_from_root]. *)
Definition save_path (o : ImageOptimizer) (c : CachedImage) : string :=
  path_from_segments [root_file_path o; get_file_path c].

Definition absolute_src_path (o : ImageOptimizer) (c : CachedImage) : string :=
  path_from_segments [root_file_path o; src c].

(** [create_image] as an async task, one constructor per await point. *)
Inductive Task :=
| TEntry (c : CachedImage)
| TAcquire (c : CachedImage) (save_path absolute_src_path : string)
| TSpawn (c : CachedImage) (save_path absolute_src_path : string)
| TRunning (c : CachedImage) (save_path absolute_src_path : string)
| TDone (r : result bool CreateImageError).

(** One step of a task; [None] when it is finished or blocked on the
    semaphore.  [let _ = self.semaphore.acquire().await.expect(..)] does not
    bind the permit: it is dropped at the end of that statement, before the
    blocking task is spawned. *)
Definition step_task (o : ImageOptimizer) (t : Task) (w : World) : option (Task * World) :=
  match t with
  | TEntry c =>
      let root := root_file_path o in
      let relative_path_created := get_file_path c in
      let save_path := path_from_segments [root; relative_path_created] in
      let absolute_src_path := path_from_segments [root; src c] in
      if file_exists w save_path then Some (TDone (Ok false), w)
      else Some (TAcquire c save_path absolute_src_path, w)
  | TAcquire c sp ap =>
      if Nat.eqb (permits w) 0 then None
      else Some (TSpawn c sp ap, log w [EvAcquire; EvRelease])
  | TSpawn c sp ap => Some (TRunning c sp ap, log w [EvTransformStart sp])
  | TRunning c sp ap =>
      let '(res, w') := create_optimized_image (opt c) ap sp w in
      let r := match res with
               | None => Err JoinError
               | Some (Err e) => Err e
               | Some (Ok _) => Ok true
               end in
      Some (TDone r, log w' [EvTransformEnd sp])
  | TDone _ => None
  end.

Fixpoint run_task (fuel : nat) (o : ImageOptimizer) (t : Task) (w : World)
  : option (result bool CreateImageError * World) :=
  match t with
  | TDone r => Some (r, w)
  | _ => match fuel with
         | O => None
         | S f => match step_task o t w with
                  | Some (t', w') => run_task f o t' w'
                  | None => None
                  end
         end
  end.

(** [ImageOptimizer::create_image] run on its own ([None]: it would wait for
    a permit forever). *)
Definition create_image (o : ImageOptimizer) (c : CachedImage) (w : World)
  : option (result bool CreateImageError * World) :=
  run_task 4 o (TEntry c) w.

(** Concurrent [create_image] calls: any task that can move, moves. *)
Inductive cstep (o : ImageOptimizer) : World * list Task -> World * list Task -> Prop :=
| CStep w ts i t t' w' :
    nth_error ts i = Some t ->
    step_task o t w = Some (t', w') ->
    cstep o (w, ts) (w', (firstn i ts ++ [t'] ++ skipn (S i) ts)%list).

Inductive creachable (o : ImageOptimizer) : World * list Task -> World * list Task -> Prop :=
| CRefl s : creachable o s s
| CTrans s1 s2 s3 : cstep o s1 s2 -> creachable o s2 s3 -> creachable o s1 s3.

Definition is_running (t : Task) : bool :=
  match t with TRunning _ _ _ => true | _ => false end.

Definition running_count (ts : list Task) : nat := length (filter is_running ts).

End Transform.

(** ** The lookup handler (routes.rs 102-178)

    [check_cache_image] calls [CachedImage::create_image(root)], which
    returns the relative path and whether it was created; the handler is
    modelled for every such function [create].  [uri_parses] is
    [str::parse::<Uri>] (its [unwrap()] panics when it fails).
    [execute_file_handler] runs [ServeDir::new(root)] on the new URI; its
    error type is [Infallible] (the [unwrap()] never panics) and its
    response goes out with a [cache-control] header added.  [ServeDir] is
    modelled for every function [serve_status] giving the status of its
    response: it answers an I/O error itself, with 404 for a missing file
    and 500 for most other errors. *)

Inductive Response :=
| RespServed (status : N) (uri cache_control : string)
| RespStatus (code : N) (body : string)
| RespPanic.

(** The status line of a response; a panic has none. *)
Definition response_status (r : Response) : option N :=
  match r with
  | RespServed s _ _ => Some s
  | RespStatus code _ => Some code
  | RespPanic => None
  end.

Section Handler.
Variable create : CachedImage -> string -> result (string * bool) CreateImageError.
Variable uri_parses : string -> bool.
Variable serve_status : string -> string -> N.

(** [None] is a panic. *)
Definition check_cache_image (uri root : string)
  : option (result (option string) CreateImageError) :=
  let url := uri in
  let maybe_cache_image := ok_of (from_url_encoded url) in
  match maybe_cache_image with
  | None => Some (Ok None)
  | Some img =>
      match create img root with
      | Err err => Some (Err err)
      | Ok (file_path, _created) =>
          (* [add_file_to_cache] only fills the in-memory cache *)
          let new_uri := "/" ++ file_path in
          if uri_parses new_uri then Some (Ok (Some new_uri)) else None
      end
  end.

Definition image_cache_handler (root uri : string) : Response :=
  match check_cache_image uri root with
  | None => RespPanic
  | Some (Ok (Some u)) =>
      RespServed (serve_status root u) u
        ("public, stale-while-revalidate, max-age=" ++ to_dec (60 * 60 * 24))
  | Some (Ok None) => RespStatus 404 "Invalid Image."
  | Some (Err _) => RespStatus 500 "Error creating image"
  end.

End Handler.

(** ** Route introspection (introspect.rs 374-425, image.rs 38-78)

    An [<Image/>] on a rendered page, by its props. *)
Record ImageProps := {
  p_src : string; p_width : N; p_height : N; p_quality : N; p_blur : bool
}.

(** The requests one [<Image/>] pushes into the introspection context. *)
Definition image_requests (p : ImageProps) : list CachedImage :=
  if starts_with "http" (p_src p) then []
  else
    let blur_image := {| src := p_src p;
                         opt := OBlur {| b_width := 20; b_height := 20; b_svg_width := 100;
                                         b_svg_height := 100; b_sigma := 15 |} |} in
    let opt_image := {| src := p_src p;
                        opt := OResize {| r_width := p_width p; r_height := p_height p;
                                          r_quality := p_quality p |} |} in
    opt_image :: (if p_blur p then [blur_image] else []).

(** The reactive runtime: the vectors behind the [Rc<RefCell<Vec<_>>>]
    contexts, by allocation index, and the [IntrospectImageContext]
    currently provided. *)
Record Runtime := { heap : list (list CachedImage); image_ctx : option nat }.

Fixpoint set_nth {A} (l : list A) (i : nat) (x : A) : list A :=
  match l, i with
  | [], _ => []
  | _ :: ys, O => x :: ys
  | y :: ys, S j => y :: set_nth ys j x
  end.

(** [provide_context(IntrospectImageContext::default())] *)
Definition provide_fresh_context (rt : Runtime) : Runtime * nat :=
  let id := length (heap rt) in
  ({| heap := (heap rt ++ [[]])%list; image_ctx := Some id |}, id).

(** [<Image/>] rendered: [use_context] and [borrow_mut().push(..)]. *)
Definition render_image (rt : Runtime) (p : ImageProps) : Runtime :=
  if starts_with "http" (p_src p) then rt
  else match image_ctx rt with
       | None => rt
       | Some id =>
           {| heap := set_nth (heap rt) id
                        ((nth id (heap rt) [] ++ image_requests p)%list);
              image_ctx := image_ctx rt |}
       end.

Section Introspect.
(** The application: the [<Image/>]s rendered for a URL. *)
Variable app_view : string -> list ImageProps.

Fixpoint images_from_paths (paths : list string) (rt : Runtime) : list CachedImage :=
  match paths with
  | [] => []
  | path :: rest =>
      let url := "http://leptos.dev" ++ path in
      let '(rt1, id) := provide_fresh_context rt in
      let rt2 := fold_left render_image (app_view url) rt1 in
      (nth id (heap rt2) [] ++ images_from_paths rest rt2)%list
  end.

(** [find_app_images_from_paths]: one render per path, the vectors
    [flatten]ed and [collect]ed. *)
Definition find_app_images_from_paths (paths : list string) : list CachedImage :=
  images_from_paths paths {| heap := []; image_ctx := None |}.

End Introspect.

(** ** The in-memory blur cache (provider.rs 44-66)

    [ImageOptimizer::cache] is a [DashMap<CachedImage, String>]: an
    association list here, whose [insert] replaces the value of a key
    already present.  Keys are compared with the derived [Eq] of
    [CachedImage]. *)

Definition resize_eqb (a b : Resize) : bool :=
  N.eqb (r_width a) (r_width b) && N.eqb (r_height a) (r_height b)
  && N.eqb (r_quality a) (r_quality b).

Definition blur_eqb (a b : Blur) : bool :=
  N.eqb (b_width a) (b_width b) && N.eqb (b_height a) (b_height b)
  && N.eqb (b_svg_width a) (b_svg_width b) && N.eqb (b_svg_height a) (b_svg_height b)
  && N.eqb (b_sigma a) (b_sigma b).

Definition option_eqb (a b : CachedImageOption) : bool :=
  match a, b with
  | OResize x, OResize y => resize_eqb x y
  | OBlur x, OBlur y => blur_eqb x y
  | _, _ => false
  end.

Definition cached_image_eqb (a b : CachedImage) : bool :=
  String.eqb (src a) (src b) && option_eqb (opt a) (opt b).

Definition ImageCache := list (CachedImage * string).

(** [DashMap::get] *)
Fixpoint cache_get (m : ImageCache) (k : CachedImage) : option string :=
  match m with
  | [] => None
  | (k', v) :: rest => if cached_image_eqb k' k then Some v else cache_get rest k
  end.

(** [DashMap::insert] *)
Definition cache_insert (m : ImageCache) (k : CachedImage) (v : string) : ImageCache :=
  (k, v) :: filter (fun '(k', _) => negb (cached_image_eqb k' k)) m.

(** [tokio::fs::read_to_string]: a file (not a directory) holding UTF-8. *)
Definition read_to_string (w : World) (p : string) : option string :=
  obind (lookup_file (files w) p) from_utf8.

Definition is_blur (c : CachedImage) : bool :=
  match opt c with OBlur _ => true | OResize _ => false end.

(** [add_image_cache]: the iterator and its two [filter]s are lazy, so the
    cache check of an image sees the inserts made for the images before
    it; a file that cannot be read is logged and skipped. *)
Fixpoint add_image_cache (o : ImageOptimizer) (w : World) (cache : ImageCache)
  (images : list CachedImage) : ImageCache :=
  match images with
  | [] => cache
  | image :: rest =>
      if is_blur image
         && match cache_get cache image with None => true | Some _ => false end
      then
        let path := get_file_path_from_root o image in
        match read_to_string w path with
        | Some data => add_image_cache o w (cache_insert cache image data) rest
        | None => add_image_cache o w cache rest
        end
      else add_image_cache o w cache rest
  end.

(** ** Concrete instances

    An image library whose decoded image is the file's bytes, whose resize
    keeps them and whose encoder returns them: the bytes of an artifact are
    those of its source. *)
Definition test_lib : ImageLib := {|
  img := string;
  decode_image := fun s => Some s;
  resize_image := fun i _ _ _ => i;
  webp_encode := fun i _ => Some i
|}.

Definition demo_optimizer : ImageOptimizer :=
  {| api_handler_path := "/cache/image"; root_file_path := "public" |}.

Definition resize_of (s : string) : CachedImage :=
  {| src := s; opt := OResize {| r_width := 100; r_height := 100; r_quality := 75 |} |}.

Definition demo_world (free : nat) (n_permits : nat) : World := {|
  files := [("public/cat.png", "PNG-CAT"); ("public/dog.png", "PNG-DOG")];
  dirs := []; free_space := free; permits := n_permits; events := [];
  denied := fun _ => false
|}.

(** The world after one [create_image] call. *)
Definition world_after (o : ImageOptimizer) (c : CachedImage) (w : World) : World :=
  match create_image test_lib o c w with Some (_, w') => w' | None => w end.

(** Three pictures, rendered without blur placeholders. *)
Definition picture (s : string) : ImageProps :=
  {| p_src := s; p_width := 100; p_height := 100; p_quality := 75; p_blur := false |}.

(** An application whose home page shows one of the three pictures of its
    gallery page. *)
Definition gallery_app (url : string) : list ImageProps :=
  if String.eqb url "http://leptos.dev/gallery" then
    [picture "a.png"; picture "b.png"; picture "c.png"]
  else if String.eqb url "http://leptos.dev/" then [picture "a.png"]
  else [].

(** The blur request an [<Image blur=true/>] pushes (image.rs 38-48). *)
Definition blur_of (s : string) : CachedImage :=
  {| src := s; opt := OBlur {| b_width := 20; b_height := 20; b_svg_width := 100;
                               b_svg_height := 100; b_sigma := 15 |} |}.

(** A page that shows [cat.png] with its blur placeholder. *)
Definition blurred_cat_app (url : string) : list ImageProps :=
  [{| p_src := "cat.png"; p_width := 100; p_height := 100; p_quality := 75;
      p_blur := true |}].

(** ** Predicates and helpers of the proofs *)

Fixpoint forall_chars (p : ascii -> bool) (s : string) : bool :=
  match s with
  | EmptyString => true
  | String c r => p c && forall_chars p r
  end.

Definition has_char (c : ascii) (s : string) : bool :=
  negb (forall_chars (fun d => negb (ascii_eqb d c)) s).

(** Bytes whose base64 sextets can never be 63 (['/']): ASCII other than
    ['?'] (63) and DEL (127). *)
Definition b64_safe (c : ascii) : bool :=
  ((byte c <? 128) && negb (byte c =? 63) && negb (byte c =? 127))%N.

(** Bytes that may occur in an encoded query-string value. *)
Definition qs_value_char (c : ascii) : bool :=
  b64_safe c && negb (ascii_eqb c "&"%char) && negb (ascii_eqb c "="%char).

(** The pieces of [qs_to_string] between the ['&']s. *)
Definition qs_pieces (c : CachedImage) : list string :=
  ("src=" ++ qs_encode_value (src c))
  :: map (fun '(v, f, x) =>
            "option" ++ bracket v ++ String.concat "" (map bracket f) ++ "=" ++ x)
         (option_fields (opt c)).

(** Bytes of a query string: base64-safe, and no ['&'] inside a piece. *)
Definition qs_char (c : ascii) : bool := b64_safe c && negb (ascii_eqb c "&"%char).

(** Bytes of a base64 encoding of base64-safe bytes: never ['/']. *)
Definition no_slash (s : string) : bool :=
  forall_chars (fun d => negb (ascii_eqb d slash)) s.

(** The source segment as [path_from_segments] keeps it. *)
Definition trim_slashes (s : string) : string :=
  trim_end_matches slash (trim_start_matches slash s).

Definition cache_key_dirs (c : CachedImage) : list string :=
  ["cache"; "image"; b64_encode (qs_to_string c)].

Definition task_result (res : option (result unit CreateImageError)) : result bool CreateImageError :=
  match res with
  | None => Err JoinError
  | Some (Err e) => Err e
  | Some (Ok _) => Ok true
  end.

Definition plain_byte (d : ascii) : bool :=
  negb (ascii_eqb d slash || ascii_eqb d "."%char).

(** * Properties *)

(** ** Byte strings *)

Lemma ascii_eqb_true a b : ascii_eqb a b = true <-> a = b.
Proof. unfold ascii_eqb; destruct (ascii_dec a b); split; congruence. Qed.

Lemma ascii_eqb_refl a : ascii_eqb a a = true.
Proof. apply ascii_eqb_true; reflexivity. Qed.

Lemma sapp_assoc (a b c : string) : (a ++ b) ++ c = a ++ (b ++ c).
Proof. induction a as [|x a IH]; simpl; [reflexivity|now rewrite IH]. Qed.

Lemma sapp_nil_r (a : string) : a ++ "" = a.
Proof. induction a as [|x a IH]; simpl; [reflexivity|now rewrite IH]. Qed.

Lemma forall_chars_app p a b :
  forall_chars p (a ++ b) = forall_chars p a && forall_chars p b.
Proof.
  induction a as [|x a IH]; simpl; [reflexivity|].
  rewrite IH; now rewrite andb_assoc.
Qed.

Lemma forall_chars_impl (p q : ascii -> bool) s :
  (forall c, p c = true -> q c = true) ->
  forall_chars p s = true -> forall_chars q s = true.
Proof.
  intros Hpq; induction s as [|c s IH]; simpl; [reflexivity|].
  intros H; apply andb_true_iff in H as [H1 H2].
  now rewrite (Hpq c H1), (IH H2).
Qed.

Lemma split_on_not_nil sep s : split_on sep s <> [].
Proof.
  destruct s as [|c r]; simpl; [discriminate|].
  destruct (ascii_eqb c sep); [discriminate|].
  destruct (split_on sep r); discriminate.
Qed.

Lemma split_on_no_sep sep s :
  forall_chars (fun d => negb (ascii_eqb d sep)) s = true -> split_on sep s = [s].
Proof.
  induction s as [|c r IH]; simpl; [reflexivity|].
  intros H; apply andb_true_iff in H as [H1 H2].
  apply negb_true_iff in H1; rewrite H1, (IH H2); reflexivity.
Qed.

Lemma split_on_app_sep sep a b :
  split_on sep (a ++ String sep b) = (split_on sep a ++ split_on sep b)%list.
Proof.
  induction a as [|c a IH]; simpl.
  - now rewrite ascii_eqb_refl.
  - rewrite IH. destruct (ascii_eqb c sep); [reflexivity|].
    destruct (split_on sep a) as [|y ys] eqn:E; [now destruct (split_on_not_nil sep a)|].
    reflexivity.
Qed.

Lemma split_on_pieces_no_sep sep s x :
  In x (split_on sep s) -> forall_chars (fun d => negb (ascii_eqb d sep)) x = true.
Proof.
  revert x; induction s as [|c r IH]; simpl; intros x Hx.
  - destruct Hx as [<-|[]]; reflexivity.
  - destruct (ascii_eqb c sep) eqn:Ec.
    + destruct Hx as [<-|Hx]; [reflexivity|auto].
    + destruct (split_on sep r) as [|y ys] eqn:E.
      * destruct Hx as [<-|[]]; simpl; now rewrite Ec.
      * destruct Hx as [<-|Hx].
        -- simpl; rewrite Ec; apply IH; now left.
        -- apply IH; now right.
Qed.

Lemma join_cons_cons sep x y l :
  join sep (x :: y :: l) = x ++ String sep (join sep (y :: l)).
Proof. reflexivity. Qed.

Lemma join_app sep l1 l2 :
  l1 <> [] -> l2 <> [] ->
  join sep (l1 ++ l2)%list = join sep l1 ++ String sep (join sep l2).
Proof.
  intros H1 H2; induction l1 as [|x l1 IH]; [congruence|].
  destruct l1 as [|y l1].
  - simpl app. destruct l2 as [|z l2]; [congruence|]. reflexivity.
  - change ((x :: y :: l1) ++ l2)%list with (x :: ((y :: l1) ++ l2))%list.
    rewrite (join_cons_cons sep x y l1).
    simpl app; rewrite join_cons_cons.
    change (y :: (l1 ++ l2))%list with ((y :: l1) ++ l2)%list.
    rewrite IH by discriminate. now rewrite sapp_assoc.
Qed.

Lemma split_on_join sep l :
  l <> [] ->
  (forall x, In x l -> forall_chars (fun d => negb (ascii_eqb d sep)) x = true) ->
  split_on sep (join sep l) = l.
Proof.
  induction l as [|x l IH]; intros Hne Hall; [congruence|].
  destruct l as [|y l].
  - simpl. apply split_on_no_sep, Hall; now left.
  - rewrite join_cons_cons, split_on_app_sep, IH.
    + rewrite split_on_no_sep by (apply Hall; now left). reflexivity.
    + discriminate.
    + intros z Hz; apply Hall; now right.
Qed.

(** ** Decimal digits *)

Lemma byte_ascii_of_N n : (n < 256)%N -> byte (ascii_of_N n) = n.
Proof. intros H; unfold byte; now apply N_ascii_embedding. Qed.

Lemma digit_char_byte d : (d < 10)%N -> byte (digit_char d) = (48 + d)%N.
Proof. intros H; unfold digit_char; apply byte_ascii_of_N; lia. Qed.

Lemma digit_char_is_digit d : (d < 10)%N -> is_digit (digit_char d) = true.
Proof.
  intros H; unfold is_digit; rewrite digit_char_byte by exact H.
  apply andb_true_iff; split; apply N.leb_le; lia.
Qed.

Lemma digits_val_dec_aux f n acc :
  (n < 10 ^ N.of_nat f)%N -> digits_val 0 (dec_aux f n acc) = digits_val n acc.
Proof.
  revert n acc; induction f as [|f IH]; intros n acc Hn.
  - simpl in Hn. assert (n = 0)%N by lia. subst; reflexivity.
  - simpl dec_aux. destruct (n <? 10)%N eqn:E.
    + apply N.ltb_lt in E. simpl.
      rewrite N.mod_small by exact E.
      rewrite digit_char_is_digit by exact E. rewrite digit_char_byte by exact E.
      f_equal. lia.
    + apply N.ltb_ge in E. rewrite IH.
      * simpl. rewrite digit_char_is_digit by (apply N.mod_lt; lia).
        rewrite digit_char_byte by (apply N.mod_lt; lia).
        f_equal. lia.
      * rewrite Nat2N.inj_succ, N.pow_succ_r' in Hn.
        apply N.Div0.div_lt_upper_bound; lia.
Qed.

Lemma dec_aux_digits f n acc :
  forall_chars is_digit acc = true -> forall_chars is_digit (dec_aux f n acc) = true.
Proof.
  revert n acc; induction f as [|f IH]; intros n acc H; simpl; [exact H|].
  assert (Hd : forall_chars is_digit (String (digit_char (n mod 10)) acc) = true).
  { simpl; rewrite digit_char_is_digit by (apply N.mod_lt; lia); exact H. }
  destruct (n <? 10)%N; [exact Hd|]. now apply IH.
Qed.

Lemma dec_aux_head f n acc :
  (exists c r, acc = String c r /\ is_digit c = true) ->
  exists c r, dec_aux f n acc = String c r /\ is_digit c = true.
Proof.
  revert n acc; induction f as [|f IH]; intros n acc H; simpl; [exact H|].
  assert (Hd : exists c r, String (digit_char (n mod 10)) acc = String c r /\ is_digit c = true).
  { exists (digit_char (n mod 10)), acc; split; [reflexivity|].
    apply digit_char_is_digit, N.mod_lt; lia. }
  destruct (n <? 10)%N; [exact Hd|]. now apply IH.
Qed.

Lemma to_dec_size n : (n < 10 ^ N.of_nat (S (N.to_nat (N.size n))))%N.
Proof.
  pose proof (N.size_gt n) as H.
  assert (H2 : (2 ^ N.size n <= 10 ^ N.size n)%N) by (apply N.pow_le_mono_l; lia).
  rewrite Nat2N.inj_succ, N2Nat.id, N.pow_succ_r'. lia.
Qed.

Lemma to_dec_digits n : forall_chars is_digit (to_dec n) = true.
Proof. unfold to_dec; now apply dec_aux_digits. Qed.

Lemma to_dec_head n : exists c r, to_dec n = String c r /\ is_digit c = true.
Proof.
  unfold to_dec; simpl dec_aux.
  assert (Hd : exists c r, String (digit_char (n mod 10)) "" = String c r /\ is_digit c = true).
  { exists (digit_char (n mod 10)), ""; split; [reflexivity|].
    apply digit_char_is_digit, N.mod_lt; lia. }
  destruct (n <? 10)%N; [exact Hd|]. now apply dec_aux_head.
Qed.

Lemma parse_uint_to_dec bits n : (n < 2 ^ bits)%N -> parse_uint bits (to_dec n) = Some n.
Proof.
  intros Hn.
  assert (V : digits_val 0 (to_dec n) = Some n).
  { unfold to_dec; rewrite digits_val_dec_aux by apply to_dec_size; reflexivity. }
  destruct (to_dec_head n) as (c & r & E & Hc).
  assert (Hplus : ascii_eqb c "+"%char = false).
  { destruct (ascii_eqb c "+"%char) eqn:X; [|reflexivity].
    apply ascii_eqb_true in X; subst c; discriminate. }
  unfold parse_uint. rewrite E in *. rewrite Hplus. cbv beta iota.
  rewrite V. apply N.ltb_lt in Hn; now rewrite Hn.
Qed.

(** ** Percent encoding and the bytes of a query string *)

Lemma percent_decode_encode_char c t :
  percent_decode (qs_encode_char c ++ t) = String c (percent_decode t).
Proof. destruct c as [[|][|][|][|][|][|][|][|]]; reflexivity. Qed.

Lemma percent_decode_encode s : percent_decode (qs_encode_value s) = s.
Proof.
  induction s as [|c s IH]; [reflexivity|].
  simpl qs_encode_value. now rewrite percent_decode_encode_char, IH.
Qed.

Lemma qs_encode_char_chars c : forall_chars qs_value_char (qs_encode_char c) = true.
Proof. destruct c as [[|][|][|][|][|][|][|][|]]; reflexivity. Qed.

Lemma qs_encode_value_chars s : forall_chars qs_value_char (qs_encode_value s) = true.
Proof.
  induction s as [|c s IH]; [reflexivity|].
  simpl qs_encode_value; rewrite forall_chars_app, qs_encode_char_chars; exact IH.
Qed.

Lemma digit_qs_value_char c : is_digit c = true -> qs_value_char c = true.
Proof.
  destruct c as [[|][|][|][|][|][|][|][|]]; vm_compute; congruence.
Qed.

Lemma percent_decode_digits s : forall_chars is_digit s = true -> percent_decode s = s.
Proof.
  induction s as [|c s IH]; simpl; [reflexivity|].
  intros H; apply andb_true_iff in H as [H1 H2].
  assert (Hp : ascii_eqb c "+"%char = false /\ ascii_eqb c "%"%char = false).
  { revert H1; destruct c as [[|][|][|][|][|][|][|][|]]; vm_compute; try discriminate;
      split; reflexivity. }
  destruct Hp as [-> ->]; now rewrite IH.
Qed.

Lemma utf8_valid_ascii s :
  forall_chars (fun c => (byte c <? 128)%N) s = true -> utf8_valid s = true.
Proof.
  induction s as [|c s IH]; simpl; [reflexivity|].
  intros H; apply andb_true_iff in H as [H1 H2]. rewrite H1. now apply IH.
Qed.

Lemma b64_safe_ascii c : b64_safe c = true -> (byte c <? 128)%N = true.
Proof. unfold b64_safe; intros H; now repeat (apply andb_true_iff in H as [H _]). Qed.

Lemma to_dec_qs_chars n : forall_chars qs_value_char (to_dec n) = true.
Proof.
  apply (forall_chars_impl is_digit); [exact digit_qs_value_char|apply to_dec_digits].
Qed.

Lemma percent_decode_to_dec n : percent_decode (to_dec n) = to_dec n.
Proof. apply percent_decode_digits, to_dec_digits. Qed.

Lemma qs_value_no_amp s :
  forall_chars qs_value_char s = true ->
  forall_chars (fun d => negb (ascii_eqb d "&"%char)) s = true.
Proof.
  apply forall_chars_impl. intros c H; unfold qs_value_char in H.
  now apply andb_true_iff in H as [H _]; apply andb_true_iff in H as [_ H].
Qed.

Lemma qs_value_qs_char c : qs_value_char c = true -> qs_char c = true.
Proof.
  unfold qs_value_char, qs_char; intros H.
  apply andb_true_iff in H as [H _]; exact H.
Qed.

Lemma qs_to_string_pieces c : qs_to_string c = join "&"%char (qs_pieces c).
Proof. reflexivity. Qed.

Lemma qs_pieces_chars c x : In x (qs_pieces c) -> forall_chars qs_char x = true.
Proof.
  assert (Hd : forall n, forall_chars qs_char (to_dec n) = true).
  { intros n; apply (forall_chars_impl qs_value_char);
      [exact qs_value_qs_char|apply to_dec_qs_chars]. }
  destruct c as [s [[w h q]|[w h sw sh sg]]]; simpl;
    intros Hx; repeat destruct Hx as [<-|Hx]; try contradiction;
    simpl.
  all: first [ apply Hd
             | apply (forall_chars_impl qs_value_char);
               [exact qs_value_qs_char|apply qs_encode_value_chars] ].
Qed.

Lemma forall_chars_join p sep l :
  p sep = true -> (forall x, In x l -> forall_chars p x = true) ->
  forall_chars p (join sep l) = true.
Proof.
  intros Hs; induction l as [|x l IH]; intros Hall; [reflexivity|].
  destruct l as [|y l].
  - apply Hall; now left.
  - rewrite join_cons_cons, forall_chars_app. simpl.
    rewrite Hall by (now left). rewrite Hs. simpl.
    apply IH; intros z Hz; apply Hall; now right.
Qed.

Lemma qs_to_string_safe c : forall_chars b64_safe (qs_to_string c) = true.
Proof.
  rewrite qs_to_string_pieces.
  apply forall_chars_join; [reflexivity|].
  intros x Hx. apply (forall_chars_impl qs_char); [|now apply (qs_pieces_chars c)].
  intros d H; unfold qs_char in H; now apply andb_true_iff in H as [H _].
Qed.

Lemma split_qs_to_string c : split_on "&"%char (qs_to_string c) = qs_pieces c.
Proof.
  rewrite qs_to_string_pieces. apply split_on_join; [discriminate|].
  intros x Hx. apply (forall_chars_impl qs_char); [|now apply (qs_pieces_chars c)].
  intros d H; unfold qs_char in H; now apply andb_true_iff in H as [_ H].
Qed.

Lemma qs_roundtrip c :
  fields_in_range c -> utf8_valid (src c) = true -> qs_from_str (qs_to_string c) = Ok c.
Proof.
  intros Hr Hu. unfold qs_from_str. rewrite split_qs_to_string.
  destruct c as [s [[w h q]|[w h sw sh sg]]]; unfold fields_in_range in Hr;
    cbn [opt r_width r_height r_quality b_width b_height b_svg_width b_svg_height b_sigma] in Hr;
    simpl in Hu; simpl;
    rewrite !percent_decode_encode, !percent_decode_to_dec; unfold from_utf8; rewrite Hu;
    simpl; unfold deserialize_option, get_uint; simpl.
  - destruct Hr as (Hw & Hh & Hq). rewrite !parse_uint_to_dec by assumption. reflexivity.
  - destruct Hr as (Hw & Hh & Hsw & Hsh & Hs).
    rewrite !parse_uint_to_dec by assumption. reflexivity.
Qed.

Lemma safe_no_question s :
  forall_chars b64_safe s = true ->
  forall_chars (fun d => negb (ascii_eqb d "?"%char)) s = true.
Proof.
  apply forall_chars_impl. intros c.
  destruct c as [[|][|][|][|][|][|][|][|]]; vm_compute; congruence.
Qed.

Lemma filter_all {A} (f : A -> bool) l : (forall x, In x l -> f x = true) -> filter f l = l.
Proof.
  induction l as [|x l IH]; intros H; simpl; [reflexivity|].
  rewrite H by (now left). f_equal. apply IH; intros y Hy; apply H; now right.
Qed.

Lemma from_url_encoded_get_url_encoded c handler_path :
  fields_in_range c -> utf8_valid (src c) = true ->
  from_url_encoded (get_url_encoded c handler_path) = Ok c.
Proof.
  intros Hr Hu. unfold from_url_encoded, get_url_encoded.
  change (handler_path ++ "?" ++ qs_to_string c)
    with (handler_path ++ String "?"%char (qs_to_string c)).
  rewrite split_on_app_sep.
  rewrite (split_on_no_sep _ (qs_to_string c))
    by (apply safe_no_question, qs_to_string_safe).
  rewrite filter_all.
  - rewrite last_last. now apply qs_roundtrip.
  - intros x Hx. apply negb_true_iff, String.eqb_neq. intros ->.
    apply in_app_or in Hx as [Hx|[Hx|[]]].
    + apply split_on_pieces_no_sep in Hx. discriminate.
    + pose proof (safe_no_question _ (qs_to_string_safe c)) as H.
      rewrite Hx in H. discriminate.
Qed.

(** ** Base64 *)

Lemma b64_char_index n : (n < 64)%N -> b64_index (b64_char n) = Some n.
Proof.
  intros H. rewrite <- (N2Nat.id n).
  assert (Hk : (N.to_nat n < 64)%nat) by lia.
  generalize (N.to_nat n) Hk. intros k Hk'.
  do 64 (destruct k as [|k]; [reflexivity|]). lia.
Qed.

Lemma b64_char_not_pad n : (n < 64)%N -> ascii_eqb (b64_char n) pad = false.
Proof.
  intros H. destruct (ascii_eqb (b64_char n) pad) eqn:E; [|reflexivity].
  apply ascii_eqb_true in E. pose proof (b64_char_index n H) as I.
  rewrite E in I. discriminate.
Qed.

Lemma b64_char_slash n : (n < 64)%N -> b64_char n = slash -> n = 63%N.
Proof.
  intros H E. pose proof (b64_char_index n H) as I. rewrite E in I.
  vm_compute in I. congruence.
Qed.

Lemma byte_lt a : (byte a < 256)%N.
Proof. apply N_ascii_bounded. Qed.

Lemma ascii_of_byte a : ascii_of_N (byte a) = a.
Proof. apply ascii_N_embedding. Qed.

Lemma ascii_eq_byte n a : n = byte a -> ascii_of_N n = a.
Proof. intros ->. apply ascii_of_byte. Qed.

Ltac b64_bounds :=
  repeat match goal with
         | |- context [byte ?a] =>
             lazymatch goal with
             | _ : (byte a < 256)%N |- _ => fail
             | _ => pose proof (byte_lt a)
             end
         end.

Ltac b64_rewrite_indices :=
  b64_bounds;
  repeat (rewrite b64_char_index by lia; cbn [obind]);
  repeat (rewrite b64_char_not_pad by lia; cbn [obind]);
  repeat (rewrite b64_char_index by lia; cbn [obind]).

Ltac b64_true_guard :=
  match goal with
  | |- context [(?e =? 0)%N] =>
      replace (e =? 0)%N with true by (symmetry; apply N.eqb_eq; lia)
  end.

Lemma b64_decode_encode s : b64_decode (b64_encode s) = Some s.
Proof.
  revert s. fix IH 1. intros [|a [|b [|c r]]].
  - reflexivity.
  - cbn [b64_encode b64_decode]. b64_rewrite_indices.
    rewrite ascii_eqb_refl. cbn [andb is_emptyb]. b64_true_guard.
    repeat f_equal; apply ascii_eq_byte; lia.
  - cbn [b64_encode b64_decode]. b64_rewrite_indices.
    rewrite ascii_eqb_refl. cbn [andb is_emptyb]. b64_true_guard.
    repeat f_equal; apply ascii_eq_byte; lia.
  - cbn [b64_encode b64_decode]. b64_rewrite_indices.
    rewrite IH. cbn [obind].
    repeat f_equal; apply ascii_eq_byte; lia.
Qed.

Lemma b64_char_no_slash n : (n < 63)%N -> negb (ascii_eqb (b64_char n) slash) = true.
Proof.
  intros H. destruct (ascii_eqb (b64_char n) slash) eqn:E; [|reflexivity].
  apply ascii_eqb_true, b64_char_slash in E; lia.
Qed.

Lemma b64_safe_facts c :
  b64_safe c = true -> (byte c < 128 /\ byte c <> 63 /\ byte c <> 127)%N.
Proof.
  unfold b64_safe; intros H.
  apply andb_true_iff in H as [H H3]; apply andb_true_iff in H as [H1 H2].
  apply N.ltb_lt in H1. apply negb_true_iff, N.eqb_neq in H2.
  apply negb_true_iff, N.eqb_neq in H3. auto.
Qed.

Ltac safe_heads H :=
  repeat match type of H with
         | _ && _ = true =>
             let Ha := fresh "Ha" in
             apply andb_true_iff in H as [Ha H];
             apply b64_safe_facts in Ha
         end.

Lemma b64_encode_no_slash s :
  forall_chars b64_safe s = true -> no_slash (b64_encode s) = true.
Proof.
  unfold no_slash. revert s. fix IH 1. intros [|a [|b [|c r]]] H.
  - reflexivity.
  - cbn [forall_chars] in H. safe_heads H. cbn [b64_encode forall_chars].
    rewrite !b64_char_no_slash by lia. reflexivity.
  - cbn [forall_chars] in H. safe_heads H. cbn [b64_encode forall_chars].
    rewrite !b64_char_no_slash by lia. reflexivity.
  - cbn [forall_chars] in H. safe_heads H. cbn [b64_encode forall_chars].
    rewrite !b64_char_no_slash by lia. cbn [andb]. now apply IH.
Qed.

Lemma b64_encode_nonempty s : s <> "" -> b64_encode s <> "".
Proof. destruct s as [|a [|b [|c r]]]; simpl; congruence. Qed.

Lemma qs_to_string_nonempty c : qs_to_string c <> "".
Proof. destruct c as [s [r|b]]; discriminate. Qed.

(** ** Trimming and the pieces of a path *)

Lemma has_char_cons d e r : has_char d (String e r) = ascii_eqb e d || has_char d r.
Proof. unfold has_char; simpl. now destruct (ascii_eqb e d). Qed.

Lemma trim_start_no c s :
  forall_chars (fun d => negb (ascii_eqb d c)) s = true -> trim_start_matches c s = s.
Proof.
  destruct s as [|d r]; simpl; [reflexivity|].
  intros H; apply andb_true_iff in H as [H _]. apply negb_true_iff in H. now rewrite H.
Qed.

Lemma trim_end_no c s :
  forall_chars (fun d => negb (ascii_eqb d c)) s = true -> trim_end_matches c s = s.
Proof.
  induction s as [|d r IH]; simpl; [reflexivity|].
  intros H; apply andb_true_iff in H as [H1 H2]. apply negb_true_iff in H1.
  rewrite (IH H2). destruct r; [now rewrite H1|reflexivity].
Qed.

Lemma trim_start_not_starts c s : starts_with_char c (trim_start_matches c s) = false.
Proof.
  induction s as [|d r IH]; simpl; [reflexivity|].
  destruct (ascii_eqb d c) eqn:E; [exact IH|]. simpl. exact E.
Qed.

Lemma trim_end_starts c s :
  starts_with_char c (trim_end_matches c s) = true -> starts_with_char c s = true.
Proof.
  destruct s as [|e r]; simpl; [discriminate|].
  destruct (trim_end_matches c r) as [|x y].
  - destruct (ascii_eqb e c) eqn:E; simpl; [discriminate|now rewrite E].
  - simpl. trivial.
Qed.

Lemma trim_not_starts s :
  starts_with_char slash (trim_end_matches slash (trim_start_matches slash s)) = false.
Proof.
  destruct (starts_with_char slash (trim_end_matches slash (trim_start_matches slash s)))
    eqn:E; [|reflexivity].
  apply trim_end_starts in E. now rewrite trim_start_not_starts in E.
Qed.

Lemma ends_with_char_no c s :
  forall_chars (fun d => negb (ascii_eqb d c)) s = true -> ends_with_char c s = false.
Proof.
  induction s as [|d r IH]; [reflexivity|].
  intros H; simpl in H; apply andb_true_iff in H as [H1 H2].
  destruct r as [|e r'].
  - simpl. now apply negb_true_iff in H1.
  - change (ends_with_char c (String e r') = false). now apply IH.
Qed.

Lemma ends_with_char_app c a b : b <> "" -> ends_with_char c (a ++ b) = ends_with_char c b.
Proof.
  intros Hb; induction a as [|x a IH]; [reflexivity|].
  simpl. destruct (a ++ b) as [|y z] eqn:E.
  - destruct a; destruct b; simpl in E; congruence.
  - exact IH.
Qed.

Lemma path_from_segments_key enc s :
  enc <> "" -> no_slash enc = true -> trim_slashes s <> "" ->
  path_from_segments ["cache/image"; enc; s]
  = "cache/image" ++ String slash (enc ++ String slash (trim_slashes s)).
Proof.
  intros He Hn Hs. unfold path_from_segments. cbn [map].
  rewrite (trim_start_no slash enc Hn), (trim_end_no slash enc Hn).
  fold (trim_slashes s). pose proof (trim_not_starts s) as Hst. fold (trim_slashes s) in Hst.
  destruct enc as [|e enc']; [congruence|].
  destruct (trim_slashes s) as [|t s'] eqn:Ets; [congruence|].
  change (trim_end_matches slash (trim_start_matches slash "cache/image"))
    with "cache/image".
  cbn [filter is_emptyb negb fold_left].
  assert (Hen : ascii_eqb e slash = false).
  { unfold no_slash in Hn; simpl in Hn. apply andb_true_iff in Hn as [Hn _].
    now apply negb_true_iff in Hn. }
  change (pathbuf_push "" "cache/image") with "cache/image".
  assert (P1 : pathbuf_push "cache/image" (String e enc')
               = "cache/image" ++ String slash (String e enc')).
  { unfold pathbuf_push; simpl starts_with_char; rewrite Hen; reflexivity. }
  rewrite P1. unfold pathbuf_push. rewrite Hst.
  replace (ends_with_char slash ("cache/image" ++ String slash (String e enc'))) with false.
  - reflexivity.
  - symmetry. rewrite ends_with_char_app by discriminate.
    change (ends_with_char slash (String e enc') = false).
    now apply ends_with_char_no.
Qed.

(** [set_extension] stops at the last piece that is neither empty nor
    ["."]: the pieces before it are kept. *)
Lemma set_ext_rev_app ext l2 l1 :
  (exists q, In q l2 /\ q <> "" /\ q <> ".") ->
  set_ext_rev ext (l2 ++ l1)%list = None \/
  exists l2', l2' <> [] /\ set_ext_rev ext (l2 ++ l1)%list = Some (l2' ++ l1)%list.
Proof.
  intros (q & Hq & Hq1 & Hq2). revert Hq.
  induction l2 as [|q0 l2 IH]; intros Hq; [destruct Hq|].
  simpl. destruct (String.eqb q0 "" || String.eqb q0 ".") eqn:E.
  - apply IH. destruct Hq as [<-|Hq]; [|exact Hq].
    apply orb_true_iff in E as [E|E]; apply String.eqb_eq in E; congruence.
  - destruct (String.eqb q0 ".."); [now left|]. right.
    eexists (_ :: _)%list; split; [discriminate|reflexivity].
Qed.

Lemma split_trim_start_in sep s q :
  q <> "" -> In q (split_on sep s) -> In q (split_on sep (trim_start_matches sep s)).
Proof.
  intros Hq; induction s as [|d r IH]; cbn [trim_start_matches]; [trivial|].
  destruct (ascii_eqb d sep) eqn:E; [|trivial].
  intros H. apply IH. cbn [split_on] in H. rewrite E in H.
  destruct H as [<-|H]; [congruence|exact H].
Qed.

Lemma split_trim_start_sub sep s q :
  In q (split_on sep (trim_start_matches sep s)) -> In q (split_on sep s).
Proof.
  induction s as [|d r IH]; cbn [trim_start_matches]; [trivial|].
  destruct (ascii_eqb d sep) eqn:E; [|trivial].
  intros H. cbn [split_on]. rewrite E. right. now apply IH.
Qed.

(** [trim_end_matches] removes a run of separators at the end. *)
Lemma trim_end_decomp c s :
  exists t, s = trim_end_matches c s ++ t /\ forall_chars (fun d => ascii_eqb d c) t = true.
Proof.
  induction s as [|d r (t & Ht & Hc)]; [exists ""; split; reflexivity|].
  cbn [trim_end_matches].
  destruct (trim_end_matches c r) as [|x y] eqn:E.
  - destruct (ascii_eqb d c) eqn:Ed.
    + exists (String d t). split; [rewrite Ht; reflexivity|cbn [forall_chars]; now rewrite Ed, Hc].
    + exists t. split; [rewrite Ht; reflexivity|exact Hc].
  - exists t. split; [rewrite Ht; reflexivity|exact Hc].
Qed.

Lemma split_all_sep sep t :
  forall_chars (fun d => ascii_eqb d sep) t = true ->
  forall x, In x (split_on sep t) -> x = "".
Proof.
  induction t as [|d r IH]; cbn [forall_chars split_on].
  - intros _ x [<-|[]]; reflexivity.
  - intros H. apply andb_true_iff in H as [Hd H]. rewrite Hd.
    intros x [<-|Hx]; [reflexivity|now apply IH].
Qed.

Lemma split_trim_end_in sep s q :
  q <> "" -> In q (split_on sep s) -> In q (split_on sep (trim_end_matches sep s)).
Proof.
  intros Hq. destruct (trim_end_decomp sep s) as (t & Ht & Hc).
  rewrite Ht at 1. destruct t as [|d t'].
  - now rewrite sapp_nil_r.
  - cbn [forall_chars] in Hc. apply andb_true_iff in Hc as [Hd Hc].
    apply ascii_eqb_true in Hd; subst d.
    rewrite split_on_app_sep. intros H. apply in_app_or in H as [H|H]; [exact H|].
    exfalso. exact (Hq (split_all_sep sep t' Hc q H)).
Qed.

Lemma split_trim_end_sub sep s q :
  In q (split_on sep (trim_end_matches sep s)) -> In q (split_on sep s).
Proof.
  destruct (trim_end_decomp sep s) as (t & Ht & Hc).
  rewrite Ht at 2. destruct t as [|d t'].
  - now rewrite sapp_nil_r.
  - cbn [forall_chars] in Hc. apply andb_true_iff in Hc as [Hd _].
    apply ascii_eqb_true in Hd; subst d.
    rewrite split_on_app_sep. intros H. apply in_or_app. now left.
Qed.

Lemma split_trim_in s q :
  q <> "" -> In q (split_on slash s) -> In q (split_on slash (trim_slashes s)).
Proof.
  intros Hq H. unfold trim_slashes. apply split_trim_end_in; [exact Hq|].
  now apply split_trim_start_in.
Qed.

Lemma split_trim_sub s q :
  In q (split_on slash (trim_slashes s)) -> In q (split_on slash s).
Proof.
  unfold trim_slashes. intros H. apply split_trim_start_sub, (split_trim_end_sub slash), H.
Qed.

(** A piece that is neither empty nor ["."]: the source has a file-name
    component for [set_extension]. *)
Lemma get_file_path_pieces c :
  (exists q, In q (split_on slash (src c)) /\ q <> "" /\ q <> ".") ->
  exists m, split_on slash (get_file_path c) = (cache_key_dirs c ++ m)%list.
Proof.
  intros (q & Hq & Hq1 & Hq2).
  set (enc := b64_encode (qs_to_string c)).
  assert (He : enc <> "") by apply b64_encode_nonempty, qs_to_string_nonempty.
  assert (Hn : no_slash enc = true) by apply b64_encode_no_slash, qs_to_string_safe.
  assert (Ht : In q (split_on slash (trim_slashes (src c)))) by now apply split_trim_in.
  assert (Hte : trim_slashes (src c) <> "").
  { intros E. rewrite E in Ht. destruct Ht as [<-|[]]. congruence. }
  assert (Hpath : split_on slash (path_from_segments ["cache/image"; enc; src c])
                  = (cache_key_dirs c ++ split_on slash (trim_slashes (src c)))%list).
  { rewrite path_from_segments_key by assumption.
    rewrite split_on_app_sep, split_on_app_sep.
    rewrite (split_on_no_sep slash enc Hn). reflexivity. }
  unfold get_file_path. fold enc. unfold set_extension.
  rewrite Hpath, rev_app_distr.
  destruct (set_ext_rev_app (extension_of (opt c))
              (rev (split_on slash (trim_slashes (src c)))) (rev (cache_key_dirs c)))
    as [E|(l2' & Hne & E)].
  - exists q. split; [now apply in_rev; rewrite rev_involutive|].
    split; assumption.
  - rewrite E. now exists (split_on slash (trim_slashes (src c))).
  - rewrite E, rev_app_distr, rev_involutive.
    exists (split_on slash (join slash (rev l2'))).
    assert (Hr : rev l2' <> []).
    { destruct l2' as [|x l2'']; [congruence|]. simpl. intros H.
      apply app_eq_nil in H as [_ H]; discriminate. }
    rewrite join_app by first [exact Hr | discriminate].
    rewrite split_on_app_sep, (split_on_join slash (cache_key_dirs c)).
    + reflexivity.
    + discriminate.
    + intros x [<-|[<-|[<-|[]]]]; [reflexivity|reflexivity|exact Hn].
Qed.

Lemma from_file_path_get_file_path c :
  fields_in_range c -> utf8_valid (src c) = true ->
  (exists q, In q (split_on slash (src c)) /\ q <> "" /\ q <> ".") ->
  from_file_path (get_file_path c) = Some c.
Proof.
  intros Hr Hu Hd. destruct (get_file_path_pieces c Hd) as [m E].
  unfold from_file_path. rewrite E. unfold cache_key_dirs. cbn [app find_map].
  assert (Hc : b64_decode "cache" = None) by reflexivity.
  assert (Hi : b64_decode "image" = None) by reflexivity.
  rewrite Hc, Hi. cbn [obind]. rewrite b64_decode_encode. cbn [obind].
  replace (from_utf8 (qs_to_string c)) with (Some (qs_to_string c)).
  - cbn [obind]. rewrite qs_roundtrip by assumption. reflexivity.
  - unfold from_utf8. rewrite utf8_valid_ascii; [reflexivity|].
    apply (forall_chars_impl b64_safe); [exact b64_safe_ascii|apply qs_to_string_safe].
Qed.

Lemma last_dot_aux_no_dot i s acc :
  forall_chars (fun d => negb (ascii_eqb d "."%char)) s = true -> last_dot_aux i s acc = acc.
Proof.
  revert i acc; induction s as [|c s IH]; intros i acc H; [reflexivity|].
  simpl in H. apply andb_true_iff in H as [H1 H2]. apply negb_true_iff in H1.
  simpl. rewrite H1. now apply IH.
Qed.

Lemma b64_char_not_dot n : negb (ascii_eqb (b64_char n) "."%char) = true.
Proof.
  destruct (ascii_eqb (b64_char n) "."%char) eqn:E; [|reflexivity].
  apply ascii_eqb_true in E. apply (f_equal N_of_ascii) in E. revert E.
  change (N_of_ascii "."%char) with 46%N. unfold b64_char.
  destruct (n <? 26)%N eqn:E1;
    [|destruct (n <? 52)%N eqn:E2;
      [|destruct (n <? 62)%N eqn:E3; [|destruct (n =? 62)%N; discriminate]]].
  - apply N.ltb_lt in E1. rewrite N_ascii_embedding by lia. lia.
  - apply N.ltb_lt in E2. rewrite N_ascii_embedding by lia. lia.
  - apply N.ltb_nlt in E2. apply N.ltb_lt in E3. rewrite N_ascii_embedding by lia. lia.
Qed.

Lemma b64_encode_no_dot s :
  forall_chars (fun d => negb (ascii_eqb d "."%char)) (b64_encode s) = true.
Proof.
  revert s. fix IH 1. intros [|a [|b [|c r]]].
  - reflexivity.
  - cbn [b64_encode forall_chars]. rewrite !b64_char_not_dot. reflexivity.
  - cbn [b64_encode forall_chars]. rewrite !b64_char_not_dot. reflexivity.
  - cbn [b64_encode forall_chars]. rewrite !b64_char_not_dot. cbn [andb]. apply IH.
Qed.

(** Base64 has no ['.']: a string holding one does not decode. *)
Lemma b64_decode_dot s : has_char "."%char s = true -> b64_decode s = None.
Proof.
  revert s. fix IH 1. intros [|a [|b [|c [|d r]]]] H; try reflexivity; [discriminate|].
  rewrite !has_char_cons in H. cbn [b64_decode].
  destruct (ascii_eqb a ".") eqn:Ea; [apply ascii_eqb_true in Ea; subst a; reflexivity|].
  destruct (b64_index a) as [i1|]; cbn [obind]; [|reflexivity].
  destruct (ascii_eqb b ".") eqn:Eb; [apply ascii_eqb_true in Eb; subst b; reflexivity|].
  destruct (b64_index b) as [i2|]; cbn [obind]; [|reflexivity].
  cbn [orb] in H.
  destruct (ascii_eqb c pad) eqn:Ecp.
  - apply ascii_eqb_true in Ecp; subst c. cbn in H.
    destruct (ascii_eqb d pad) eqn:Edp; cbn [andb]; [|reflexivity].
    apply ascii_eqb_true in Edp; subst d. cbn in H.
    destruct r; [discriminate|reflexivity].
  - destruct (ascii_eqb c ".") eqn:Ec; [apply ascii_eqb_true in Ec; subst c; reflexivity|].
    destruct (b64_index c) as [i3|]; cbn [obind]; [|reflexivity].
    cbn [orb] in H.
    destruct (ascii_eqb d pad) eqn:Edp.
    + apply ascii_eqb_true in Edp; subst d. cbn in H.
      destruct r; [discriminate|reflexivity].
    + destruct (ascii_eqb d ".") eqn:Ed; [apply ascii_eqb_true in Ed; subst d; reflexivity|].
      destruct (b64_index d) as [i4|]; cbn [obind]; [|reflexivity].
      cbn [orb] in H. now rewrite (IH r H).
Qed.

(** [set_extension] skips empty and ["."] pieces. *)
Lemma set_ext_rev_skip ext l1 l2 :
  (forall q, In q l1 -> q = "" \/ q = ".") ->
  set_ext_rev ext (l1 ++ l2)%list = set_ext_rev ext l2.
Proof.
  induction l1 as [|q l1 IH]; intros H; [reflexivity|].
  cbn [app set_ext_rev].
  destruct (H q (or_introl eq_refl)) as [->| ->]; apply IH; intros x Hx; apply H; now right.
Qed.

(** A source made of empty and ["."] pieces only: no file-name component
    is left after the key, and [set_extension] renames the key itself. *)
Lemma get_file_path_dot_src c :
  (forall q, In q (split_on slash (src c)) -> q = "" \/ q = ".") ->
  get_file_path c
  = "cache/image/" ++ b64_encode (qs_to_string c) ++ "." ++ extension_of (opt c).
Proof.
  intros Hall.
  set (enc := b64_encode (qs_to_string c)).
  assert (He : enc <> "") by apply b64_encode_nonempty, qs_to_string_nonempty.
  assert (Hn : no_slash enc = true) by apply b64_encode_no_slash, qs_to_string_safe.
  assert (Hd : forall_chars (fun d => negb (ascii_eqb d "."%char)) enc = true)
    by apply b64_encode_no_dot.
  assert (Hall' : forall q, In q (split_on slash (trim_slashes (src c))) -> q = "" \/ q = ".")
    by (intros q Hq; apply Hall, split_trim_sub, Hq).
  assert (Hpath : exists l,
             split_on slash (path_from_segments ["cache/image"; enc; src c])
             = (["cache"; "image"; enc] ++ l)%list /\
             (forall q, In q l -> q = "" \/ q = ".")).
  { destruct (String.eqb (trim_slashes (src c)) "") eqn:Et.
    - apply String.eqb_eq in Et. exists []. split; [|intros q []].
      unfold path_from_segments. cbn [map]. fold (trim_slashes (src c)). rewrite Et.
      rewrite (trim_start_no slash enc Hn), (trim_end_no slash enc Hn).
      destruct enc as [|e enc']; [congruence|].
      change (trim_end_matches slash (trim_start_matches slash "cache/image"))
        with "cache/image". cbn [filter is_emptyb negb fold_left].
      assert (Hen : ascii_eqb e slash = false).
      { unfold no_slash in Hn; simpl in Hn. apply andb_true_iff in Hn as [Hn' _].
        now apply negb_true_iff in Hn'. }
      change (pathbuf_push "" "cache/image") with "cache/image".
      assert (P1 : pathbuf_push "cache/image" (String e enc')
                   = "cache/image" ++ String slash (String e enc')).
      { unfold pathbuf_push; simpl starts_with_char; rewrite Hen; reflexivity. }
      rewrite P1, split_on_app_sep, (split_on_no_sep slash _ Hn). reflexivity.
    - apply String.eqb_neq in Et. exists (split_on slash (trim_slashes (src c))).
      split; [|exact Hall'].
      rewrite path_from_segments_key by assumption.
      rewrite split_on_app_sep, split_on_app_sep, (split_on_no_sep slash enc Hn).
      reflexivity. }
  destruct Hpath as (l & Hl & Hlall).
  unfold get_file_path. fold enc. unfold set_extension. rewrite Hl, rev_app_distr.
  rewrite set_ext_rev_skip by (intros q Hq; apply Hlall, in_rev, Hq).
  cbn [rev app set_ext_rev].
  assert (Hstem : file_stem_of_name enc = enc).
  { unfold file_stem_of_name. rewrite last_dot_aux_no_dot by exact Hd.
    destruct (String.eqb enc "..") eqn:E; [|reflexivity].
    apply String.eqb_eq in E. rewrite E in Hd. discriminate. }
  assert (Hne : String.eqb enc "" || String.eqb enc "." = false).
  { apply orb_false_iff; split; apply String.eqb_neq; intros E; rewrite E in Hd;
      [congruence|discriminate]. }
  assert (Hdd : String.eqb enc ".." = false).
  { apply String.eqb_neq; intros E; rewrite E in Hd; discriminate. }
  rewrite Hne, Hdd, Hstem.
  assert (Hx : is_emptyb (extension_of (opt c)) = false) by (destruct (opt c); reflexivity).
  rewrite Hx. cbn [rev app].
  change (join slash ["cache"; "image"; enc ++ String "."%char (extension_of (opt c))])
    with ("cache/image/" ++ (enc ++ String "."%char (extension_of (opt c)))).
  reflexivity.
Qed.

(** The path of such a source decodes to nothing. *)
Lemma from_file_path_dot_src c :
  (forall q, In q (split_on slash (src c)) -> q = "" \/ q = ".") ->
  from_file_path (get_file_path c) = None.
Proof.
  intros Hall. rewrite get_file_path_dot_src by exact Hall.
  set (enc := b64_encode (qs_to_string c)).
  assert (Hn : no_slash enc = true) by apply b64_encode_no_slash, qs_to_string_safe.
  unfold from_file_path.
  change ("cache/image/" ++ enc ++ "." ++ extension_of (opt c))
    with ("cache" ++ String slash ("image" ++ String slash (enc ++ "." ++ extension_of (opt c)))).
  rewrite !split_on_app_sep.
  assert (Hx : no_slash ("." ++ extension_of (opt c)) = true) by (destruct (opt c); reflexivity).
  assert (Hs : no_slash (enc ++ "." ++ extension_of (opt c)) = true)
    by (unfold no_slash; rewrite forall_chars_app; apply andb_true_iff; split; assumption).
  rewrite (split_on_no_sep slash _ Hs).
  change (split_on slash "cache") with ["cache"].
  change (split_on slash "image") with ["image"]. cbn [app find_map].
  assert (Hc : b64_decode "cache" = None) by reflexivity.
  assert (Hi : b64_decode "image" = None) by reflexivity.
  assert (Hk : b64_decode (enc ++ "." ++ extension_of (opt c)) = None).
  { apply b64_decode_dot. unfold has_char. rewrite forall_chars_app.
    cbn [forall_chars]. rewrite andb_false_r. reflexivity. }
  rewrite Hc, Hi, Hk. reflexivity.
Qed.

(** * The claims *)

(** ** C1: the two codecs of [CachedImage] *)

(** C1 (amended): for a request whose fields fit their Rust types and whose
    source is UTF-8, decoding the wire encoding gives the request back for
    every handler path and every source; decoding the file path gives it
    back exactly when some ['/']-piece of the source is neither empty nor
    ["."] (any ['/'], ['?'] or other byte elsewhere in the source is
    fine). *)
Theorem cached_image_roundtrip c handler_path :
  fields_in_range c -> utf8_valid (src c) = true ->
  from_url_encoded (get_url_encoded c handler_path) = Ok c /\
  (from_file_path (get_file_path c) = Some c <->
   exists q, In q (split_on slash (src c)) /\ q <> "" /\ q <> ".").
Proof.
  intros Hr Hu. split; [now apply from_url_encoded_get_url_encoded|].
  split; [|now apply from_file_path_get_file_path].
  intros H.
  destruct (existsb (fun q => negb (String.eqb q "" || String.eqb q "."))
              (split_on slash (src c))) eqn:E.
  - apply existsb_exists in E as (q & Hq & Hn). exists q. split; [exact Hq|].
    apply negb_true_iff, orb_false_iff in Hn as [H1 H2].
    split; apply String.eqb_neq; assumption.
  - exfalso. rewrite from_file_path_dot_src in H; [discriminate|].
    intros q Hq. destruct (String.eqb q "" || String.eqb q ".") eqn:Eq.
    + apply orb_true_iff in Eq as [Eq|Eq]; apply String.eqb_eq in Eq; [now left|now right].
    + assert (Hx : existsb (fun q => negb (String.eqb q "" || String.eqb q "."))
                     (split_on slash (src c)) = true)
        by (apply existsb_exists; exists q; split; [exact Hq|now rewrite Eq]).
      congruence.
Qed.

Lemma cached_image_roundtrip_witness :
  let c := {| src := "photos/a?b/cat.png";
              opt := OBlur {| b_width := 20; b_height := 20; b_svg_width := 100;
                              b_svg_height := 100; b_sigma := 15 |} |} in
  fields_in_range c /\ utf8_valid (src c) = true /\
  from_url_encoded (get_url_encoded c "/cache/image") = Ok c /\
  (from_file_path (get_file_path c) = Some c <->
   exists q, In q (split_on slash (src c)) /\ q <> "" /\ q <> ".").
Proof.
  intros c.
  assert (Hr : fields_in_range c) by (vm_compute; repeat split; reflexivity).
  assert (Hu : utf8_valid (src c) = true) by reflexivity.
  split; [exact Hr|]. split; [exact Hu|].
  exact (cached_image_roundtrip c "/cache/image" Hr Hu).
Defined.

(** C1 counterexample: the source ["."] (a valid request) is stored at
    [cache/image/<key>.webp]; that path decodes to nothing. *)
Lemma file_path_roundtrip_fails_dot_src :
  let c := {| src := "."; opt := OResize {| r_width := 100; r_height := 100;
                                            r_quality := 75 |} |} in
  fields_in_range c /\ utf8_valid (src c) = true /\
  get_file_path c
  = "cache/image/c3JjPS4mb3B0aW9uW3JdW3ddPTEwMCZvcHRpb25bcl1baF09MTAwJm9wdGlvbltyXVtxXT03NQ==.webp" /\
  from_file_path (get_file_path c) = None.
Proof.
  intros c. split; [vm_compute; repeat split; reflexivity|].
  split; [reflexivity|]. split; vm_compute; reflexivity.
Qed.

(** ** The derivative store *)

Lemma lookup_update_file fs p d : lookup_file (update_file fs p d) p = Some d.
Proof. simpl. now rewrite String.eqb_refl. Qed.

Lemma mkdirs_files w l r w' :
  mkdirs w l = (r, w') -> files w' = files w /\ free_space w' = free_space w.
Proof.
  revert w; induction l as [|d l IH]; intros w; simpl.
  - intros H; injection H as _ <-; split; reflexivity.
  - destruct (is_dir w d); [apply IH|].
    destruct (mkdir_fails w d); [intros H; injection H as _ <-; split; reflexivity|].
    intros H; apply IH in H as [-> ->]; split; reflexivity.
Qed.

(** [create_nested_if_needed] only makes directories. *)
Lemma create_nested_files w p r w' :
  create_nested_if_needed w p = (r, w') -> files w' = files w /\ free_space w' = free_space w.
Proof.
  unfold create_nested_if_needed, create_dir_all.
  destruct (parent p) as [q|]; [|intros H; injection H as _ <-; split; reflexivity].
  destruct (negb (file_exists w q)); [|intros H; injection H as _ <-; split; reflexivity].
  destruct (is_emptyb q); [intros H; injection H as _ <-; split; reflexivity|].
  destruct (Nat.leb _ _); [intros H; injection H as _ <-; split; reflexivity|].
  destruct (is_dir w q); [intros H; injection H as _ <-; split; reflexivity|].
  apply mkdirs_files.
Qed.



Lemma fs_write_ok w p d u w' :
  fs_write w p d = (Ok u, w') -> files w' = update_file (files w) p d.
Proof.
  unfold fs_write. destruct (create_fails w p); [discriminate|].
  destruct (Nat.leb _ _); intros E; [injection E as _ <-; reflexivity|discriminate].
Qed.

Lemma fs_write_exists w p d u w' : fs_write w p d = (Ok u, w') -> file_exists w' p = true.
Proof.
  intros E. apply fs_write_ok in E. unfold file_exists, is_file. rewrite E.
  simpl. now rewrite String.eqb_refl.
Qed.

Lemma file_exists_log w es p : file_exists (log w es) p = file_exists w p.
Proof. reflexivity. Qed.

Lemma create_optimized_image_ok_exists L cfg ap sp w u w' :
  create_optimized_image L cfg ap sp w = (Some (Ok u), w') -> file_exists w' sp = true.
Proof.
  unfold create_optimized_image. destruct cfg as [r|b].
  - destruct (open_image L w ap); [|discriminate].
    destruct (webp_encode L _ _); [|discriminate].
    destruct (create_nested_if_needed w sp) as [[u1|e1] w1]; [|discriminate].
    destruct (fs_write w1 sp _) as [res w2] eqn:E. intros H; injection H as -> <-.
    exact (fs_write_exists _ _ _ _ _ E).
  - destruct (create_image_blur L w ap b) as [[svg|e]|]; try discriminate.
    destruct (create_nested_if_needed w sp) as [[u1|e1] w1]; [|discriminate].
    destruct (fs_write w1 sp svg) as [res w2] eqn:E. intros H; injection H as -> <-.
    exact (fs_write_exists _ _ _ _ _ E).
Qed.

Lemma step_entry L o c w :
  step_task L o (TEntry c) w =
  if file_exists w (save_path o c) then Some (TDone (Ok false), w)
  else Some (TAcquire c (save_path o c) (absolute_src_path o c), w).
Proof. reflexivity. Qed.

Lemma step_acquire L o c sp ap w :
  permits w <> 0 ->
  step_task L o (TAcquire c sp ap) w = Some (TSpawn c sp ap, log w [EvAcquire; EvRelease]).
Proof. intros H. simpl. apply Nat.eqb_neq in H. now rewrite H. Qed.

Lemma step_spawn L o c sp ap w :
  step_task L o (TSpawn c sp ap) w = Some (TRunning c sp ap, log w [EvTransformStart sp]).
Proof. reflexivity. Qed.

Lemma step_running L o c sp ap w :
  step_task L o (TRunning c sp ap) w =
  let '(res, w') := create_optimized_image L (opt c) ap sp w in
  Some (TDone (task_result res), log w' [EvTransformEnd sp]).
Proof. reflexivity. Qed.

Lemma create_image_cached L o c w :
  file_exists w (save_path o c) = true -> create_image L o c w = Some (Ok false, w).
Proof.
  intros H. unfold create_image. cbn [run_task]. now rewrite step_entry, H.
Qed.

(** A call on a missing artifact: the semaphore, the blocking task, and
    the result of [create_optimized_image]. *)
Lemma create_image_missing L o c w :
  file_exists w (save_path o c) = false ->
  create_image L o c w =
  if Nat.eqb (permits w) 0 then None
  else let w1 := log (log w [EvAcquire; EvRelease]) [EvTransformStart (save_path o c)] in
       let '(res, w2) :=
         create_optimized_image L (opt c) (absolute_src_path o c) (save_path o c) w1 in
       Some (task_result res, log w2 [EvTransformEnd (save_path o c)]).
Proof.
  intros H. unfold create_image. cbn [run_task]. rewrite step_entry, H.
  cbn [run_task]. destruct (Nat.eqb (permits w) 0) eqn:Ep.
  - simpl. now rewrite Ep.
  - apply Nat.eqb_neq in Ep. rewrite step_acquire by exact Ep.
    cbn [run_task]. rewrite step_spawn. cbn [run_task]. rewrite step_running.
    cbv zeta. destruct (create_optimized_image _ _ _ _ _) as [res w2]. reflexivity.
Qed.

(** ** C2: [create_image] is idempotent *)

(** C2: when the artifact is missing and a call succeeds, it reports
    [created = true] and the artifact now exists; a second call then
    returns [created = false] with the world untouched: no permit taken,
    no transform run, no file written. *)
Theorem create_image_idempotent L o c w b w' :
  file_exists w (save_path o c) = false ->
  create_image L o c w = Some (Ok b, w') ->
  b = true /\ file_exists w' (save_path o c) = true /\
  create_image L o c w' = Some (Ok false, w').
Proof.
  intros Hne Hc. rewrite create_image_missing in Hc by exact Hne.
  destruct (Nat.eqb (permits w) 0); [discriminate|]. cbv zeta in Hc.
  destruct (create_optimized_image _ _ _ _ _) as [res w2] eqn:E.
  destruct res as [[u|e]|]; cbn in Hc; inversion Hc; subst.
  assert (Hx : file_exists (log w2 [EvTransformEnd (save_path o c)]) (save_path o c) = true)
    by (rewrite file_exists_log; exact (create_optimized_image_ok_exists _ _ _ _ _ _ _ E)).
  split; [reflexivity|]. split; [exact Hx|]. now apply create_image_cached.
Qed.

Lemma create_image_idempotent_witness :
  let o := demo_optimizer in
  let c := resize_of "cat.png" in
  let w := demo_world 1000 1 in
  file_exists w (save_path o c) = false /\
  create_image test_lib o c w = Some (Ok true, world_after o c w) /\
  create_image test_lib o c (world_after o c w) = Some (Ok false, world_after o c w).
Proof.
  intros o c w.
  assert (H1 : file_exists w (save_path o c) = false) by (vm_compute; reflexivity).
  assert (H2 : create_image test_lib o c w = Some (Ok true, world_after o c w))
    by (vm_compute; reflexivity).
  split; [exact H1|]. split; [exact H2|].
  exact (proj2 (proj2 (create_image_idempotent test_lib o c w true _ H1 H2))).
Defined.

(** ** C3: the semaphore does not bound the running transforms *)

Ltac cstep_at i :=
  eapply CTrans; [eapply (CStep _ _ _ _ i); reflexivity|].

(** C3 (the code disagrees with the doc comment of [parallelism]): with a
    single permit, two [create_image] calls on two missing artifacts can
    both have their transform running at the same time; the trace takes
    and gives back the permit before each transform starts. *)
Theorem transforms_exceed_parallelism :
  exists s,
    creachable test_lib demo_optimizer
      (demo_world 1000 1, [TEntry (resize_of "cat.png"); TEntry (resize_of "dog.png")]) s /\
    permits (demo_world 1000 1) = 1 /\
    running_count (snd s) = 2 /\
    events (fst s) = [EvAcquire; EvRelease;
                      EvTransformStart (save_path demo_optimizer (resize_of "cat.png"));
                      EvAcquire; EvRelease;
                      EvTransformStart (save_path demo_optimizer (resize_of "dog.png"))].
Proof.
  eexists. split.
  - cstep_at 0%nat. cstep_at 0%nat. cstep_at 0%nat.
    cstep_at 1%nat. cstep_at 1%nat. cstep_at 1%nat.
    apply CRefl.
  - split; [reflexivity|]. split; reflexivity.
Qed.

(** ** C4: how an artifact is written *)







(** ** C5: no length check on the cache key *)

Lemma b64_encode_length s :
  String.length (b64_encode s) = 4 * ((String.length s + 2) / 3).
Proof.
  revert s. fix IH 1. intros [|a [|b [|c r]]]; [reflexivity|reflexivity|reflexivity|].
  cbn [b64_encode String.length]. rewrite IH.
  replace (S (S (S (String.length r))) + 2) with (String.length r + 2 + 1 * 3) by lia.
  rewrite Nat.div_add by discriminate. lia.
Qed.

(** C5 (amended): [get_file_path] returns a path for every request, with
    no check of its length: the cache key is the base64 of the whole
    query string, [4 * ceil(n / 3)] bytes for an [n]-byte query string,
    whatever [n] is.  When some ['/']-piece of the source is neither empty
    nor ["."], the key is a directory of its own, [cache/image/<key>/..];
    otherwise [set_extension] turns it into the file name
    [cache/image/<key>.<ext>]. *)
Theorem get_file_path_key_length c :
  String.length (b64_encode (qs_to_string c))
    = 4 * ((String.length (qs_to_string c) + 2) / 3) /\
  ((exists q, In q (split_on slash (src c)) /\ q <> "" /\ q <> ".") ->
   exists m, split_on slash (get_file_path c)
             = (["cache"; "image"; b64_encode (qs_to_string c)] ++ m)%list) /\
  ((forall q, In q (split_on slash (src c)) -> q = "" \/ q = ".") ->
   get_file_path c
   = "cache/image/" ++ b64_encode (qs_to_string c) ++ "." ++ extension_of (opt c)).
Proof.
  split; [apply b64_encode_length|]. split.
  - intros Hq. exact (get_file_path_pieces c Hq).
  - apply get_file_path_dot_src.
Qed.

Lemma get_file_path_key_length_witness :
  let c := resize_of (Nat.iter 200 (String "a"%char) "") in
  (exists q, In q (split_on slash (src c)) /\ q <> "" /\ q <> ".") /\
  exists m,
    split_on slash (get_file_path c)
      = (["cache"; "image"; b64_encode (qs_to_string c)] ++ m)%list.
Proof.
  intros c.
  assert (H : exists q, In q (split_on slash (src c)) /\ q <> "" /\ q <> ".").
  { exists (src c). split; [vm_compute; now left|].
    split; intros E; vm_compute in E; discriminate. }
  split; [exact H|]. exact (proj1 (proj2 (get_file_path_key_length c)) H).
Defined.

(** C5 counterexample: a 200-byte source gives a 340-byte directory name,
    returned as is; the path is too long for the file system. *)
Lemma over_long_segment_not_rejected :
  let c := resize_of (Nat.iter 200 (String "a"%char) "") in
  nth 2 (split_on slash (get_file_path c)) "" = b64_encode (qs_to_string c) /\
  String.length (nth 2 (split_on slash (get_file_path c)) "") = 340 /\
  (255 <? String.length (nth 2 (split_on slash (get_file_path c)) ""))%nat = true /\
  name_too_long (get_file_path c) = true.
Proof. intros c. repeat split; vm_compute; reflexivity. Qed.

(** ** C6: the file name of an artifact *)

Lemma plain_no_dot s :
  forall_chars plain_byte s = true ->
  forall_chars (fun d => negb (ascii_eqb d "."%char)) s = true.
Proof.
  apply forall_chars_impl. intros d H. unfold plain_byte in H.
  apply negb_true_iff, orb_false_iff in H as [_ H]. now rewrite H.
Qed.

Lemma plain_no_slash s : forall_chars plain_byte s = true -> no_slash s = true.
Proof.
  apply forall_chars_impl. intros d H. unfold plain_byte in H.
  apply negb_true_iff, orb_false_iff in H as [H _]. now rewrite H.
Qed.

Lemma last_dot_aux_app i a s acc :
  forall_chars (fun d => negb (ascii_eqb d "."%char)) a = true ->
  last_dot_aux i (a ++ s) acc = last_dot_aux (i + String.length a) s acc.
Proof.
  revert i; induction a as [|c a IH]; intros i H; simpl; [now rewrite Nat.add_0_r|].
  simpl in H. apply andb_true_iff in H as [H1 H2]. apply negb_true_iff in H1.
  rewrite H1, IH by exact H2. now rewrite Nat.add_succ_r.
Qed.

Lemma substring_app a b : substring 0 (String.length a) (a ++ b) = a.
Proof. induction a as [|c a IH]; simpl; [now destruct b|now rewrite IH]. Qed.

Lemma file_stem_of_name_ext stem ext :
  stem <> "" -> forall_chars plain_byte stem = true -> forall_chars plain_byte ext = true ->
  file_stem_of_name (stem ++ String "."%char ext) = stem.
Proof.
  intros Hne Hs He. unfold file_stem_of_name.
  destruct stem as [|s0 st] eqn:Est; [congruence|].
  assert (Hs0 : ascii_eqb s0 "."%char = false).
  { simpl in Hs. apply andb_true_iff in Hs as [Hs _]. unfold plain_byte in Hs.
    now apply negb_true_iff, orb_false_iff in Hs as [_ Hs]. }
  replace (String.eqb (String s0 st ++ String "." ext) "..") with false.
  2:{ symmetry. apply String.eqb_neq. simpl. intros H; injection H as H _.
      subst s0. now rewrite ascii_eqb_refl in Hs0. }
  rewrite (last_dot_aux_app 0 (String s0 st)) by (now apply plain_no_dot).
  cbn [last_dot_aux Nat.add]. rewrite ascii_eqb_refl.
  rewrite last_dot_aux_no_dot by (now apply plain_no_dot).
  change (S (String.length st)) with (String.length (String s0 st)).
  apply substring_app.
Qed.

Lemma is_emptyb_extension_of o : is_emptyb (extension_of o) = false.
Proof. now destruct o. Qed.

(** C6 (amended): for a source that is a single file name [stem.ext]
    (no ['/'], one ['.']), the artifact path is
    [cache/image/<base64 key>/stem.webp] for a resize and
    [cache/image/<base64 key>/stem.svg] for a blur: the source's extension
    is replaced, not kept. *)
Theorem get_file_path_file_name c stem ext :
  src c = stem ++ String "."%char ext -> stem <> "" ->
  forall_chars plain_byte stem = true -> forall_chars plain_byte ext = true ->
  get_file_path c
  = "cache/image/" ++ b64_encode (qs_to_string c) ++ "/" ++ stem ++ "."
      ++ extension_of (opt c).
Proof.
  intros Hsrc Hne Hs He.
  set (enc := b64_encode (qs_to_string c)).
  assert (Hen : enc <> "") by apply b64_encode_nonempty, qs_to_string_nonempty.
  assert (Hn : no_slash enc = true) by apply b64_encode_no_slash, qs_to_string_safe.
  assert (Hsn : no_slash (src c) = true).
  { pose proof (plain_no_slash _ Hs) as A. pose proof (plain_no_slash _ He) as B.
    unfold no_slash in *. rewrite Hsrc, forall_chars_app. simpl.
    rewrite A, B. reflexivity. }
  assert (Ht : trim_slashes (src c) = src c).
  { unfold trim_slashes. rewrite trim_start_no, trim_end_no; trivial. }
  assert (Hsrc_ne : src c <> "").
  { rewrite Hsrc. destruct stem; [congruence|discriminate]. }
  unfold get_file_path. fold enc.
  rewrite path_from_segments_key by (try rewrite Ht; assumption). rewrite Ht.
  unfold set_extension.
  rewrite split_on_app_sep, split_on_app_sep, (split_on_no_sep slash enc Hn),
    (split_on_no_sep slash (src c) Hsn).
  change (split_on slash "cache/image") with ["cache"; "image"].
  cbn [app rev]. cbn [set_ext_rev].
  replace (String.eqb (src c) "" || String.eqb (src c) ".") with false.
  2:{ symmetry. rewrite Hsrc. destruct stem as [|s0 st]; [congruence|].
      apply orb_false_iff. split; apply String.eqb_neq; [discriminate|].
      simpl. intros H. injection H as H1 H2. destruct st; discriminate. }
  replace (String.eqb (src c) "..") with false.
  2:{ symmetry. apply String.eqb_neq. intros E. rewrite E in Hsrc.
      destruct stem as [|s0 st]; [congruence|]. simpl in Hsrc.
      injection Hsrc as H0 _. subst s0. simpl in Hs. discriminate. }
  rewrite is_emptyb_extension_of, Hsrc, file_stem_of_name_ext by assumption.
  reflexivity.
Qed.

Lemma get_file_path_file_name_witness :
  let c := resize_of "cat.png" in
  src c = "cat" ++ String "."%char "png" /\ "cat" <> "" /\
  forall_chars plain_byte "cat" = true /\ forall_chars plain_byte "png" = true /\
  get_file_path c
  = "cache/image/" ++ b64_encode (qs_to_string c) ++ "/" ++ "cat" ++ "."
      ++ extension_of (opt c).
Proof.
  intros c.
  assert (H1 : src c = "cat" ++ String "."%char "png") by reflexivity.
  assert (H2 : "cat" <> "") by discriminate.
  assert (H3 : forall_chars plain_byte "cat" = true) by reflexivity.
  assert (H4 : forall_chars plain_byte "png" = true) by reflexivity.
  split; [exact H1|]. split; [exact H2|]. split; [exact H3|]. split; [exact H4|].
  exact (get_file_path_file_name c "cat" "png" H1 H2 H3 H4).
Defined.

(** C6 counterexample: ["cat.png"] resized is stored as [.../cat.webp],
    not [.../cat.png.webp]. *)
Lemma cat_png_path :
  let c := resize_of "cat.png" in
  get_file_path c = "cache/image/" ++ b64_encode (qs_to_string c) ++ "/cat.webp" /\
  String.eqb (get_file_path c)
    ("cache/image/" ++ b64_encode (qs_to_string c) ++ "/cat.png.webp") = false.
Proof. intros c. split; vm_compute; reflexivity. Qed.

(** ** C7: route introspection *)

Lemma set_nth_length {A} (l : list A) i x : length (set_nth l i x) = length l.
Proof.
  revert i; induction l as [|y l IH]; intros [|i]; simpl; auto.
Qed.

Lemma nth_set_nth {A} (l : list A) i x d : (i < length l)%nat -> nth i (set_nth l i x) d = x.
Proof.
  revert i; induction l as [|y l IH]; intros [|i] H; simpl in *; try lia; auto.
  apply IH; lia.
Qed.

(** Rendering [<Image/>]s under a provided context appends their requests
    to that context's vector. *)
Lemma fold_render_image ps rt id :
  image_ctx rt = Some id -> (id < length (heap rt))%nat ->
  let rt' := fold_left render_image ps rt in
  image_ctx rt' = Some id /\ length (heap rt') = length (heap rt) /\
  nth id (heap rt') [] = (nth id (heap rt) [] ++ flat_map image_requests ps)%list.
Proof.
  revert rt; induction ps as [|p ps IH]; intros rt Hc Hl; simpl.
  - now rewrite app_nil_r.
  - assert (Hstep : image_ctx (render_image rt p) = Some id /\
                    length (heap (render_image rt p)) = length (heap rt) /\
                    nth id (heap (render_image rt p)) [] = (nth id (heap rt) [] ++ image_requests p)%list).
    { unfold render_image, image_requests. destruct (starts_with "http" (p_src p)).
      - now rewrite app_nil_r.
      - rewrite Hc. simpl. rewrite set_nth_length, nth_set_nth by exact Hl. auto. }
    destruct Hstep as (H1 & H2 & H3).
    destruct (IH (render_image rt p) H1 ltac:(lia)) as (H4 & H5 & H6).
    split; [exact H4|]. split; [lia|]. rewrite H6, H3. now rewrite app_assoc.
Qed.

Lemma images_from_paths_spec app_view paths rt :
  images_from_paths app_view paths rt
  = flat_map (fun path => flat_map image_requests (app_view ("http://leptos.dev" ++ path)))
             paths.
Proof.
  revert rt; induction paths as [|path paths IH]; intros rt; [reflexivity|].
  cbn [images_from_paths flat_map]. unfold provide_fresh_context. cbn beta iota zeta.
  set (rt1 := {| heap := (heap rt ++ [[]])%list; image_ctx := Some (length (heap rt)) |}).
  destruct (fold_render_image (app_view ("http://leptos.dev" ++ path)) rt1 (length (heap rt)))
    as (_ & _ & H); [reflexivity|cbn [heap rt1]; rewrite length_app; cbn; lia|].
  rewrite H, IH. f_equal. cbn [heap rt1]. rewrite app_nth2 by lia.
  now rewrite Nat.sub_diag.
Qed.

(** C7 (amended): [find_app_images_from_paths] renders each path once
    under a fresh context and returns the concatenation, path by path, of
    the requests of the [<Image/>]s rendered there; nothing is removed, so
    an image rendered on two routes is listed twice. *)
Theorem find_app_images_concat app_view paths :
  find_app_images_from_paths app_view paths
  = flat_map (fun path => flat_map image_requests (app_view ("http://leptos.dev" ++ path)))
             paths.
Proof. apply images_from_paths_spec. Qed.

(** C7 counterexample: over ["/"; "/gallery"], where ["/gallery"] shows
    three pictures and ["/"] one of them, four requests come back and the
    shared picture is listed twice. *)
Lemma gallery_duplicate_request :
  let res := find_app_images_from_paths gallery_app ["/"; "/gallery"] in
  length res = 4%nat /\
  nth 0 res (resize_of "") = resize_of "a.png" /\
  nth 1 res (resize_of "") = resize_of "a.png" /\
  ~ NoDup res.
Proof.
  intros res.
  assert (E : res = [resize_of "a.png"; resize_of "a.png"; resize_of "b.png";
                     resize_of "c.png"]) by (vm_compute; reflexivity).
  rewrite E. split; [reflexivity|]. split; [reflexivity|]. split; [reflexivity|].
  intros H. inversion H as [|x l Hx Hnd]. apply Hx. now left.
Qed.

(** ** C8: the lookup handler's statuses *)

(** C8 (amended): whatever [create_image], the URI parser and [ServeDir]
    do, a URI whose query does not decode gets a 404 (so never a 500).
    The handler answers with status 500 exactly when the query decoded
    and either [create_image] returned an error, or it succeeded and
    [ServeDir] answered the new URI with a 500. *)
Theorem handler_status_codes create uri_parses serve_status root uri :
  (forall e, from_url_encoded uri = Err e ->
             image_cache_handler create uri_parses serve_status root uri
             = RespStatus 404 "Invalid Image.") /\
  (response_status (image_cache_handler create uri_parses serve_status root uri) = Some 500%N <->
   exists c, from_url_encoded uri = Ok c /\
     ((exists e, create c root = Err e) \/
      (exists fp created, create c root = Ok (fp, created) /\
         uri_parses ("/" ++ fp) = true /\ serve_status root ("/" ++ fp) = 500%N))).
Proof.
  unfold image_cache_handler, check_cache_image.
  destruct (from_url_encoded uri) as [c|e0]; cbn [ok_of].
  - split; [intros e H; discriminate|].
    destruct (create c root) as [[fp created]|err] eqn:Ec.
    + destruct (uri_parses ("/" ++ fp)) eqn:Eu; cbn [response_status].
      * split.
        -- intros H; injection H as H. exists c; split; [reflexivity|right].
           exists fp, created; split; [exact Ec|split; [exact Eu|exact H]].
        -- intros (c' & H1 & [(e & H2)|(fp' & cr & H2 & H3 & H4)]);
             injection H1 as <-; rewrite Ec in H2; [discriminate|].
           injection H2 as <- <-. now rewrite H4.
      * split; [discriminate|].
        intros (c' & H1 & [(e & H2)|(fp' & cr & H2 & H3 & H4)]);
          injection H1 as <-; rewrite Ec in H2; [discriminate|].
        injection H2 as <- <-. congruence.
    + cbn [response_status]. split; [|reflexivity].
      intros _. exists c; split; [reflexivity|left; now exists err].
  - split; [intros e _; reflexivity|].
    cbn [response_status]. split; [discriminate|intros (c & H & _); discriminate].
Qed.

Lemma handler_status_codes_witness :
  let create := fun (_ : CachedImage) (_ : string) => @Err (string * bool) _ IOError in
  let uri_parses := fun (_ : string) => true in
  let serve_status := fun (_ _ : string) => 200%N in
  from_url_encoded "/cache/image?op=zzz" = Err (QsMissingField "src") /\
  image_cache_handler create uri_parses serve_status "public" "/cache/image?op=zzz"
    = RespStatus 404 "Invalid Image.".
Proof.
  intros create uri_parses serve_status.
  assert (H : from_url_encoded "/cache/image?op=zzz" = Err (QsMissingField "src"))
    by (vm_compute; reflexivity).
  split; [exact H|].
  exact (proj1 (handler_status_codes create uri_parses serve_status "public"
                  "/cache/image?op=zzz") _ H).
Defined.

(** C8 counterexample: the request for ["cat.png"] decodes and its
    artifact is created, but [ServeDir] fails to read the file (an I/O
    error other than not-found or permission-denied) and answers 500: the
    handler passes that 500 on although generation succeeded. *)
Lemma served_500_after_create :
  let c := resize_of "cat.png" in
  let uri := get_url_encoded c "/cache/image" in
  let create := fun (c' : CachedImage) (_ : string) =>
                  @Ok _ CreateImageError (get_file_path c', true) in
  let uri_parses := fun (_ : string) => true in
  let serve_status := fun (_ _ : string) => 500%N in
  from_url_encoded uri = Ok c /\
  create c "public" = Ok (get_file_path c, true) /\
  image_cache_handler create uri_parses serve_status "public" uri
    = RespServed 500 ("/" ++ get_file_path c)
        ("public, stale-while-revalidate, max-age=" ++ to_dec 86400).
Proof. intros c uri create uri_parses serve_status. repeat split; vm_compute; reflexivity. Qed.

(** ** C9: the blur placeholder is a function of the source bytes *)

(** C9: two runs of [create_image_blur] on worlds whose source file holds
    the same bytes return the same result, whatever else differs; a
    successful result is the SVG template filled with the [Blur]'s
    [svg_width], [svg_height] and [sigma] and the base64 of the WebP
    bytes. *)
Theorem create_image_blur_deterministic L w1 w2 source_path blur :
  lookup_file (files w1) source_path = lookup_file (files w2) source_path ->
  create_image_blur L w1 source_path blur = create_image_blur L w2 source_path blur /\
  (forall svg, create_image_blur L w1 source_path blur = Some (Ok svg) ->
   exists webp,
     svg = blur_svg (b_svg_width blur) (b_svg_height blur) (b_sigma blur)
             ("data:image/webp;base64," ++ b64_encode webp)).
Proof.
  intros H. split.
  - unfold create_image_blur, open_image. now rewrite H.
  - intros svg. unfold create_image_blur.
    destruct (open_image L w1 source_path) as [i|]; [|discriminate].
    destruct (webp_encode L _ _) as [webp|]; [|discriminate].
    intros E; injection E as <-. now exists webp.
Qed.

Lemma create_image_blur_deterministic_witness :
  let blur := {| b_width := 20; b_height := 20; b_svg_width := 100; b_svg_height := 100;
                 b_sigma := 15 |} in
  lookup_file (files (demo_world 1000 1)) "public/cat.png"
    = lookup_file (files (demo_world 3 0)) "public/cat.png" /\
  create_image_blur test_lib (demo_world 1000 1) "public/cat.png" blur
    = create_image_blur test_lib (demo_world 3 0) "public/cat.png" blur.
Proof.
  intros blur.
  assert (H : lookup_file (files (demo_world 1000 1)) "public/cat.png"
              = lookup_file (files (demo_world 3 0)) "public/cat.png") by reflexivity.
  split; [exact H|].
  exact (proj1 (create_image_blur_deterministic test_lib _ _ _ blur H)).
Defined.

(** ** C10: the paths the store derives *)

Lemma starts_with_char_app c a b :
  a <> "" -> starts_with_char c (a ++ b) = starts_with_char c a.
Proof. destruct a; [congruence|reflexivity]. Qed.

Lemma fold_push_relative l buf :
  starts_with_char slash buf = false ->
  (forall s, In s l -> starts_with_char slash s = false) ->
  starts_with_char slash (fold_left pathbuf_push l buf) = false.
Proof.
  revert buf; induction l as [|s l IH]; intros buf Hb Hl; [exact Hb|].
  simpl. apply IH; [|intros x Hx; apply Hl; now right].
  assert (Hs : starts_with_char slash s = false) by (apply Hl; now left).
  unfold pathbuf_push. rewrite Hs.
  destruct (is_emptyb buf) eqn:Ee; [exact Hs|].
  assert (Hne : buf <> "") by (intros ->; discriminate).
  destruct (ends_with_char slash buf); rewrite starts_with_char_app by exact Hne; exact Hb.
Qed.

Lemma path_from_segments_relative segs :
  starts_with_char slash (path_from_segments segs) = false.
Proof.
  unfold path_from_segments. apply fold_push_relative; [reflexivity|].
  intros s Hs. apply filter_In in Hs as [Hs _]. apply in_map_iff in Hs as (x & <- & _).
  apply trim_not_starts.
Qed.

Lemma path_from_segments_head a b l :
  trim_slashes a = trim_slashes b ->
  path_from_segments (a :: l) = path_from_segments (b :: l).
Proof.
  intros H. unfold path_from_segments. cbn [map].
  change (trim_end_matches slash (trim_start_matches slash a)) with (trim_slashes a).
  change (trim_end_matches slash (trim_start_matches slash b)) with (trim_slashes b).
  now rewrite H.
Qed.

Lemma path_from_segments_second a b c :
  trim_slashes b = trim_slashes c ->
  path_from_segments [a; b] = path_from_segments [a; c].
Proof.
  intros H. unfold path_from_segments. cbn [map].
  change (trim_end_matches slash (trim_start_matches slash b)) with (trim_slashes b).
  change (trim_end_matches slash (trim_start_matches slash c)) with (trim_slashes c).
  now rewrite H.
Qed.

(** C10 (amended): the save path, the absolute source path and
    [get_file_path_from_root] never start with ['/'] (an absolute root is
    used as a relative one); roots equal up to leading and trailing ['/']
    give the same three paths, and sources equal up to leading and
    trailing ['/'] give the same absolute source path.  The save path is
    not in that list: the cache key encodes the source verbatim. *)
Theorem store_paths_relative o o' c c' :
  (starts_with_char slash (save_path o c) = false /\
   starts_with_char slash (absolute_src_path o c) = false /\
   starts_with_char slash (get_file_path_from_root o c) = false) /\
  (trim_slashes (root_file_path o) = trim_slashes (root_file_path o') ->
   save_path o c = save_path o' c /\
   absolute_src_path o c = absolute_src_path o' c /\
   get_file_path_from_root o c = get_file_path_from_root o' c) /\
  (trim_slashes (src c) = trim_slashes (src c') ->
   absolute_src_path o c = absolute_src_path o c').
Proof.
  split; [|split].
  - split; [|split]; apply path_from_segments_relative.
  - intros H. unfold save_path, absolute_src_path, get_file_path_from_root.
    split; [|split]; now apply path_from_segments_head.
  - intros H. unfold absolute_src_path. now apply path_from_segments_second.
Qed.

Lemma store_paths_relative_witness :
  let o := {| api_handler_path := "/cache/image"; root_file_path := "/var/www/" |} in
  let o' := {| api_handler_path := "/cache/image"; root_file_path := "var/www" |} in
  let c := resize_of "/cat.png" in
  let c' := resize_of "cat.png" in
  trim_slashes (root_file_path o) = trim_slashes (root_file_path o') /\
  trim_slashes (src c) = trim_slashes (src c') /\
  save_path o c = save_path o' c /\
  absolute_src_path o c = "var/www/cat.png" /\
  absolute_src_path o c = absolute_src_path o c'.
Proof.
  intros o o' c c'.
  assert (H1 : trim_slashes (root_file_path o) = trim_slashes (root_file_path o'))
    by reflexivity.
  assert (H2 : trim_slashes (src c) = trim_slashes (src c')) by reflexivity.
  destruct (store_paths_relative o o' c c') as (_ & H3 & H4).
  split; [exact H1|]. split; [exact H2|]. split; [exact (proj1 (H3 H1))|].
  split; [reflexivity|exact (H4 H2)].
Defined.

(** C10 counterexample: the sources ["cat.png"] and ["/cat.png"] differ only
    by a leading ['/'] and share their absolute source path, but their
    artifacts are saved at two different paths. *)
Lemma leading_slash_source_new_artifact :
  let c := resize_of "cat.png" in
  let c' := resize_of "/cat.png" in
  trim_slashes (src c) = trim_slashes (src c') /\
  absolute_src_path demo_optimizer c = absolute_src_path demo_optimizer c' /\
  String.eqb (save_path demo_optimizer c) (save_path demo_optimizer c') = false.
Proof. intros c c'. split; [reflexivity|]. split; vm_compute; reflexivity. Qed.

(** * Further properties of the code *)

(** ** Helpers *)

Lemma trim_end_not_ends c s : ends_with_char c (trim_end_matches c s) = false.
Proof.
  induction s as [|d r IH]; [reflexivity|]. cbn [trim_end_matches].
  destruct (trim_end_matches c r) as [|x y] eqn:E.
  - destruct (ascii_eqb d c) eqn:Ed; [reflexivity|]. exact Ed.
  - exact IH.
Qed.

Lemma trim_end_keep c s : ends_with_char c s = false -> trim_end_matches c s = s.
Proof.
  induction s as [|d r IH]; intros H; [reflexivity|]. cbn [trim_end_matches].
  destruct r as [|x y].
  - cbn [trim_end_matches]. cbn in H. now rewrite H.
  - rewrite IH by exact H. reflexivity.
Qed.

Lemma fold_push_join l buf :
  buf <> "" -> ends_with_char slash buf = false ->
  (forall s, In s l ->
     s <> "" /\ starts_with_char slash s = false /\ ends_with_char slash s = false) ->
  fold_left pathbuf_push l buf = join slash (buf :: l).
Proof.
  revert buf; induction l as [|s l IH]; intros buf Hb He Hl; [reflexivity|].
  destruct (Hl s (or_introl eq_refl)) as (Hs1 & Hs2 & Hs3).
  cbn [fold_left].
  assert (Hp : pathbuf_push buf s = buf ++ String slash s).
  { unfold pathbuf_push. rewrite Hs2, He. destruct buf; [congruence|reflexivity]. }
  rewrite Hp, IH.
  - destruct l as [|y l]; [reflexivity|].
    rewrite !join_cons_cons, sapp_assoc. reflexivity.
  - destruct buf; [congruence|discriminate].
  - rewrite ends_with_char_app by discriminate. destruct s as [|a s]; [congruence|].
    exact Hs3.
  - intros t Ht; apply Hl; now right.
Qed.

Lemma path_from_segments_join_aux segs :
  path_from_segments segs
  = join slash (filter (fun s => negb (is_emptyb s)) (map trim_slashes segs)).
Proof.
  unfold path_from_segments.
  change (fun s => trim_end_matches slash (trim_start_matches slash s)) with trim_slashes.
  destruct (filter (fun s => negb (is_emptyb s)) (map trim_slashes segs)) as [|x l] eqn:E;
    [reflexivity|].
  assert (Hall : forall s, In s (x :: l) ->
            s <> "" /\ starts_with_char slash s = false /\ ends_with_char slash s = false).
  { intros s Hs. rewrite <- E in Hs. apply filter_In in Hs as [Hs Hne].
    apply in_map_iff in Hs as (t & <- & _).
    split; [intros Heq; rewrite Heq in Hne; discriminate|].
    split; [apply trim_not_starts | apply trim_end_not_ends]. }
  destruct (Hall x (or_introl eq_refl)) as (Hx1 & Hx2 & Hx3).
  cbn [fold_left].
  replace (pathbuf_push "" x) with x by (unfold pathbuf_push; now rewrite Hx2).
  apply fold_push_join; [exact Hx1|exact Hx3|].
  intros s Hs; apply Hall; now right.
Qed.

Lemma join_cons_string sep c x l :
  join sep (String c x :: l) = String c (join sep (x :: l)).
Proof. destruct l; reflexivity. Qed.

Lemma join_split sep s : join sep (split_on sep s) = s.
Proof.
  induction s as [|c r IH]; [reflexivity|]. cbn [split_on].
  destruct (split_on sep r) as [|x xs] eqn:Er; [now destruct (split_on_not_nil sep r)|].
  destruct (ascii_eqb c sep) eqn:E.
  - apply ascii_eqb_true in E; subst c. rewrite join_cons_cons, IH. reflexivity.
  - rewrite join_cons_string, IH. reflexivity.
Qed.

(** The file name of a trimmed source is never empty. *)
Lemma trimmed_name_nonempty s dir name :
  trim_slashes s = dir ++ String slash name -> name <> "".
Proof.
  intros Ht ->. pose proof (trim_end_not_ends slash (trim_start_matches slash s)) as H.
  fold (trim_slashes s) in H. rewrite Ht, ends_with_char_app in H by discriminate.
  cbn in H. discriminate.
Qed.

Lemma get_file_path_dirs_aux c dir name :
  trim_slashes (src c) = dir ++ String slash name ->
  no_slash name = true -> name <> "." -> name <> ".." ->
  get_file_path c
  = "cache/image/" ++ b64_encode (qs_to_string c) ++ "/" ++ dir ++ "/"
    ++ file_stem_of_name name ++ "." ++ extension_of (opt c).
Proof.
  intros Ht Hn Hd1 Hd2.
  assert (Hn1 : String.eqb name "" = false)
    by (apply String.eqb_neq; exact (trimmed_name_nonempty _ _ _ Ht)).
  assert (Hn2 : String.eqb name "." = false) by (apply String.eqb_neq; exact Hd1).
  assert (Hn3 : String.eqb name ".." = false) by (apply String.eqb_neq; exact Hd2).
  set (enc := b64_encode (qs_to_string c)).
  assert (He : enc <> "") by apply b64_encode_nonempty, qs_to_string_nonempty.
  assert (Hne : no_slash enc = true) by apply b64_encode_no_slash, qs_to_string_safe.
  unfold get_file_path. fold enc.
  rewrite path_from_segments_key
    by first [assumption | rewrite Ht; destruct dir; discriminate].
  rewrite Ht. unfold set_extension.
  rewrite !split_on_app_sep, (split_on_no_sep slash enc Hne), (split_on_no_sep slash name Hn).
  change (split_on slash "cache/image") with ["cache"; "image"].
  replace (["cache"; "image"] ++ [enc] ++ split_on slash dir ++ [name])%list
    with ((["cache"; "image"; enc] ++ split_on slash dir) ++ [name])%list
    by (rewrite <- !app_assoc; reflexivity).
  rewrite rev_unit. cbn [set_ext_rev]. rewrite Hn1, Hn2, Hn3. cbn [orb].
  assert (Hx : is_emptyb (extension_of (opt c)) = false) by (destruct (opt c); reflexivity).
  rewrite Hx. cbn [rev]. rewrite rev_involutive.
  rewrite join_app by first [discriminate | apply app_not_nil_l; discriminate].
  rewrite join_app by first [discriminate | apply split_on_not_nil].
  rewrite join_split, !sapp_assoc. reflexivity.
Qed.

Lemma trim_start_keep c s : starts_with_char c s = false -> trim_start_matches c s = s.
Proof. destruct s as [|d r]; cbn; [reflexivity|]. intros H; now rewrite H. Qed.

Lemma find_map_app {A B} (f : A -> option B) l1 l2 :
  find_map f (l1 ++ l2)%list
  = match find_map f l1 with Some y => Some y | None => find_map f l2 end.
Proof.
  induction l1 as [|x l1 IH]; [reflexivity|]. cbn [find_map app].
  destruct (f x); [reflexivity|exact IH].
Qed.

Lemma lookup_update_other fs p d p' :
  p' <> p -> lookup_file (update_file fs p d) p' = lookup_file fs p'.
Proof.
  intros Hne. unfold update_file. cbn [lookup_file].
  destruct (String.eqb_spec p p') as [E|_]; [congruence|].
  induction fs as [|[q e] fs IH]; [reflexivity|]. cbn [filter].
  destruct (String.eqb_spec q p) as [->|Hq]; cbn [negb lookup_file].
  - destruct (String.eqb_spec p p'); [congruence|]. exact IH.
  - destruct (String.eqb q p'); [reflexivity|exact IH].
Qed.

Lemma zero_permits_inv L o c w s1 s2 :
  permits w = 0 -> file_exists w (save_path o c) = false ->
  creachable L o s1 s2 ->
  s1 = (w, [TEntry c]) \/ s1 = (w, [TAcquire c (save_path o c) (absolute_src_path o c)]) ->
  s2 = (w, [TEntry c]) \/ s2 = (w, [TAcquire c (save_path o c) (absolute_src_path o c)]).
Proof.
  intros Hp Hf Hr.
  induction Hr as [s1|s1 s2 s3 Hst Hr IH]; intros Hs0; [exact Hs0|]. apply IH.
  destruct Hs0 as [->| ->]; inversion Hst as [w0 ts i t t' w' Hi Hstep]; subst.
  - destruct i as [|[|i]]; try discriminate. cbn in Hi. injection Hi as <-.
    rewrite step_entry, Hf in Hstep. injection Hstep as <- <-. right. reflexivity.
  - destruct i as [|[|i]]; try discriminate. cbn in Hi. injection Hi as <-.
    cbn [step_task] in Hstep. rewrite Hp in Hstep. discriminate.
Qed.

(** ** The two codecs *)

(** X1: [from_url_encoded] parses only what follows the last ['?'] of the
    URL: a query string [q] without ['?'] is parsed alone, whatever comes
    before its ['?'] (a handler path, other ['?']s), and a URL without any
    ['?'] is parsed whole. *)
Theorem from_url_encoded_last_query url q :
  has_char "?"%char q = false ->
  from_url_encoded q = qs_from_str q /\ from_url_encoded (url ++ "?" ++ q) = qs_from_str q.
Proof.
  intros Hq. unfold has_char in Hq. apply negb_false_iff in Hq.
  assert (E : String.eqb q "?" = false).
  { apply String.eqb_neq. intros ->. discriminate. }
  unfold from_url_encoded. split.
  - rewrite (split_on_no_sep _ q Hq). cbn [filter]. rewrite E. reflexivity.
  - change (url ++ "?" ++ q) with (url ++ String "?"%char q).
    rewrite split_on_app_sep, (split_on_no_sep _ q Hq), filter_app.
    cbn [filter]. rewrite E. cbn [negb]. rewrite last_last. reflexivity.
Qed.

Lemma from_url_encoded_last_query_witness :
  has_char "?"%char "src=cat.png" = false /\
  from_url_encoded "src=cat.png" = qs_from_str "src=cat.png" /\
  from_url_encoded ("/cache/image?x=1" ++ "?" ++ "src=cat.png") = qs_from_str "src=cat.png".
Proof.
  assert (H : has_char "?"%char "src=cat.png" = false) by reflexivity.
  split; [exact H|]. exact (from_url_encoded_last_query "/cache/image?x=1" "src=cat.png" H).
Defined.

(** X2: [from_file_path] reads the segments from the left and stops at the
    first one that decodes to a [CachedImage]: on [a/b] it returns what [a]
    gives, and only when [a] gives nothing what [b] gives.  Leading
    directories that are no cache key (a root such as [public]) are
    skipped. *)
Theorem from_file_path_app a b :
  from_file_path (a ++ String slash b)
  = match from_file_path a with Some x => Some x | None => from_file_path b end.
Proof. unfold from_file_path. rewrite split_on_app_sep. apply find_map_app. Qed.

(** ** Paths *)

(** X3: [path_from_segments] is the ['/']-join of the segments trimmed of
    their leading and trailing ['/'], the empty ones dropped: exactly one
    ['/'] between two kept segments, none at either end, and [""] when no
    segment is left. *)
Theorem path_from_segments_join segs :
  path_from_segments segs
  = join slash (filter (fun s => negb (is_emptyb s)) (map trim_slashes segs)).
Proof. apply path_from_segments_join_aux. Qed.

(** X4: the directories of the source are kept verbatim, [".."] included,
    both below the cache key in the save path and below the root in the
    absolute source path: for a source [dir/name] (trimmed of ['/']) with
    a file name that is neither [.] nor [..], the artifact is saved at
    [root/cache/image/<key>/dir/<stem>.<ext>] and read from
    [root/dir/name].  The paths are not normalised, so enough [".."] in
    [dir] lead out of the root. *)
Theorem save_path_keeps_source_dirs o c dir name :
  trim_slashes (root_file_path o) <> "" ->
  trim_slashes (src c) = dir ++ String slash name ->
  no_slash name = true -> name <> "." -> name <> ".." ->
  save_path o c
  = trim_slashes (root_file_path o) ++ "/cache/image/" ++ b64_encode (qs_to_string c)
    ++ "/" ++ dir ++ "/" ++ file_stem_of_name name ++ "." ++ extension_of (opt c)
  /\ absolute_src_path o c = trim_slashes (root_file_path o) ++ "/" ++ dir ++ "/" ++ name.
Proof.
  intros Hr Ht Hn Hd1 Hd2.
  assert (Hg := get_file_path_dirs_aux c dir name Ht Hn Hd1 Hd2).
  assert (Htg : trim_slashes (get_file_path c) = get_file_path c).
  { unfold trim_slashes. rewrite trim_start_keep by (rewrite Hg; reflexivity).
    apply trim_end_keep. rewrite Hg, <- !sapp_assoc.
    rewrite ends_with_char_app by (destruct (opt c); discriminate).
    destruct (opt c); reflexivity. }
  assert (Hre : is_emptyb (trim_slashes (root_file_path o)) = false)
    by (destruct (trim_slashes (root_file_path o)); [congruence|reflexivity]).
  assert (Hge : is_emptyb (get_file_path c) = false) by (rewrite Hg; reflexivity).
  assert (Hse : is_emptyb (trim_slashes (src c)) = false)
    by (rewrite Ht; destruct dir; reflexivity).
  unfold save_path, absolute_src_path. rewrite !path_from_segments_join_aux.
  cbn [map]. rewrite Htg. cbn [filter]. rewrite Hre, Hge, Hse. cbn [negb].
  split; [rewrite Hg|rewrite Ht]; reflexivity.
Qed.

Lemma save_path_keeps_source_dirs_witness :
  let c := resize_of "../../../etc/x.png" in
  trim_slashes (root_file_path demo_optimizer) <> "" /\
  trim_slashes (src c) = "../../../etc" ++ String slash "x.png" /\
  no_slash "x.png" = true /\ "x.png" <> "." /\ "x.png" <> ".." /\
  save_path demo_optimizer c
  = trim_slashes (root_file_path demo_optimizer) ++ "/cache/image/"
    ++ b64_encode (qs_to_string c) ++ "/" ++ "../../../etc" ++ "/"
    ++ file_stem_of_name "x.png" ++ "." ++ extension_of (opt c)
  /\ absolute_src_path demo_optimizer c
     = trim_slashes (root_file_path demo_optimizer) ++ "/" ++ "../../../etc" ++ "/" ++ "x.png".
Proof.
  intros c.
  assert (H1 : trim_slashes (root_file_path demo_optimizer) <> "")
    by (intros H; vm_compute in H; discriminate).
  assert (H2 : trim_slashes (src c) = "../../../etc" ++ String slash "x.png")
    by reflexivity.
  assert (H3 : no_slash "x.png" = true) by reflexivity.
  assert (H4 : "x.png" <> ".") by discriminate.
  assert (H5 : "x.png" <> "..") by discriminate.
  split; [exact H1|]. split; [exact H2|]. split; [exact H3|]. split; [exact H4|].
  split; [exact H5|].
  exact (save_path_keeps_source_dirs demo_optimizer c "../../../etc" "x.png" H1 H2 H3 H4 H5).
Defined.

(** ** The derivative store *)

(** X5: when nothing exists at the save path but the source cannot be read
    and decoded, [create_image] returns [Err(ImageError)] and no file is
    written. *)
Theorem create_image_unreadable_source L o c w :
  file_exists w (save_path o c) = false -> permits w <> 0 ->
  open_image L w (absolute_src_path o c) = None ->
  exists w', create_image L o c w = Some (Err ImageError, w') /\ files w' = files w.
Proof.
  intros Hf Hp Ho. rewrite create_image_missing by exact Hf.
  apply Nat.eqb_neq in Hp. rewrite Hp.
  assert (Hol : forall es es',
             open_image L (log (log w es) es') (absolute_src_path o c) = None)
    by (intros; exact Ho).
  unfold create_optimized_image, create_image_blur.
  destruct (opt c); cbv zeta; rewrite Hol; eexists; split; reflexivity.
Qed.

Lemma create_image_unreadable_source_witness :
  let c := resize_of "missing.png" in
  let w := demo_world 1000 1 in
  file_exists w (save_path demo_optimizer c) = false /\ permits w <> 0 /\
  open_image test_lib w (absolute_src_path demo_optimizer c) = None /\
  exists w', create_image test_lib demo_optimizer c w = Some (Err ImageError, w')
             /\ files w' = files w.
Proof.
  intros c w.
  assert (H1 : file_exists w (save_path demo_optimizer c) = false) by (vm_compute; reflexivity).
  assert (H2 : permits w <> 0) by discriminate.
  assert (H3 : open_image test_lib w (absolute_src_path demo_optimizer c) = None)
    by (vm_compute; reflexivity).
  split; [exact H1|]. split; [exact H2|]. split; [exact H3|].
  exact (create_image_unreadable_source test_lib demo_optimizer c w H1 H2 H3).
Defined.

(** X6: with no permit in the semaphore ([ImageOptimizer::new] with
    parallelism 0), a [create_image] call for an artifact that does not
    exist never finishes: it reaches the [acquire().await] and waits there
    forever, and nothing else happens to the world. *)
Theorem create_image_zero_permits_blocks L o c w s :
  permits w = 0 -> file_exists w (save_path o c) = false ->
  creachable L o (w, [TEntry c]) s ->
  s = (w, [TEntry c]) \/ s = (w, [TAcquire c (save_path o c) (absolute_src_path o c)]).
Proof.
  intros Hp Hf Hr. apply (zero_permits_inv L o c w (w, [TEntry c])); auto.
Qed.

Lemma create_image_zero_permits_blocks_witness :
  let c := resize_of "cat.png" in
  let w := demo_world 1000 0 in
  let s := (w, [TAcquire c (save_path demo_optimizer c) (absolute_src_path demo_optimizer c)]) in
  permits w = 0 /\ file_exists w (save_path demo_optimizer c) = false /\
  creachable test_lib demo_optimizer (w, [TEntry c]) s /\
  (s = (w, [TEntry c])
   \/ s = (w, [TAcquire c (save_path demo_optimizer c) (absolute_src_path demo_optimizer c)])).
Proof.
  intros c w s.
  assert (H1 : permits w = 0) by reflexivity.
  assert (H2 : file_exists w (save_path demo_optimizer c) = false) by (vm_compute; reflexivity).
  assert (H3 : creachable test_lib demo_optimizer (w, [TEntry c]) s).
  { eapply CTrans; [eapply (CStep _ _ _ _ 0); reflexivity|]. apply CRefl. }
  split; [exact H1|]. split; [exact H2|]. split; [exact H3|].
  exact (create_image_zero_permits_blocks test_lib demo_optimizer c w s H1 H2 H3).
Defined.

Lemma mkdirs_log w l es r w1 :
  mkdirs w l = (r, w1) -> mkdirs (log w es) l = (r, log w1 es).
Proof.
  revert w; induction l as [|d l IH]; intros w; cbn [mkdirs].
  - intros H; injection H as <- <-; reflexivity.
  - change (is_dir (log w es) d) with (is_dir w d).
    change (mkdir_fails (log w es) d) with (mkdir_fails w d).
    destruct (is_dir w d); [apply IH|].
    destruct (mkdir_fails w d); [intros H; injection H as <- <-; reflexivity|].
    intros H. change (add_dir (log w es) d) with (log (add_dir w d) es). now apply IH.
Qed.

(** The trace plays no part in making directories. *)
Lemma create_nested_log w p es r w1 :
  create_nested_if_needed w p = (r, w1) ->
  create_nested_if_needed (log w es) p = (r, log w1 es).
Proof.
  unfold create_nested_if_needed, create_dir_all.
  destruct (parent p) as [q|]; [|intros H; injection H as <- <-; reflexivity].
  change (file_exists (log w es) q) with (file_exists w q).
  change (is_dir (log w es) q) with (is_dir w q).
  destruct (negb (file_exists w q)); [|intros H; injection H as <- <-; reflexivity].
  destruct (is_emptyb q); [intros H; injection H as <- <-; reflexivity|].
  destruct (Nat.leb _ _); [intros H; injection H as <- <-; reflexivity|].
  destruct (is_dir w q); [intros H; injection H as <- <-; reflexivity|].
  apply mkdirs_log.
Qed.

(** The end of both branches when the directories are made, the file can
    be created and the artifact fits on the disk. *)
Lemma nested_write_ok w w1 sp art es es' :
  create_nested_if_needed w sp = (Ok tt, w1) ->
  create_fails w1 sp = false ->
  String.length art <= free_space w ->
  exists w2,
    match create_nested_if_needed (log (log w es) es') sp with
    | (Err e, w1) => (Some (Err e), w1)
    | (Ok _, w1) => let '(res, w2) := fs_write w1 sp art in (Some res, w2)
    end = (Some (Ok tt), w2) /\
    files w2 = update_file (files w) sp art.
Proof.
  intros Hn Hc Hlen.
  pose proof (create_nested_files _ _ _ _ Hn) as [Hf Hs].
  rewrite (create_nested_log _ _ es' _ _ (create_nested_log _ _ es _ _ Hn)).
  unfold fs_write. change (create_fails (log (log w1 es) es') sp) with (create_fails w1 sp).
  rewrite Hc. cbn [free_space log]. rewrite Hs, (proj2 (Nat.leb_le _ _) Hlen).
  eexists; split; [reflexivity|]. cbn [files log set_files]. now rewrite Hf.
Qed.

(** X7: when nothing exists at the save path, a permit is free, the source
    decodes, [create_nested_if_needed] makes the directories, the save
    path can be created as a file and the WebP encoding of the resized
    image fits on the disk, [create_image] on a [Resize] request returns
    [Ok(true)]; the save path then holds exactly the WebP bytes of the
    source resized to the requested width and height (Catmull-Rom) at the
    requested quality, and every other path is unchanged. *)
Theorem create_image_resize_artifact L o c w r i webp w1 :
  file_exists w (save_path o c) = false -> permits w <> 0 -> opt c = OResize r ->
  open_image L w (absolute_src_path o c) = Some i ->
  webp_encode L (resize_image L i (r_width r) (r_height r) CatmullRom) (r_quality r)
  = Some webp ->
  create_nested_if_needed w (save_path o c) = (Ok tt, w1) ->
  create_fails w1 (save_path o c) = false ->
  String.length webp <= free_space w ->
  exists w', create_image L o c w = Some (Ok true, w') /\
    lookup_file (files w') (save_path o c) = Some webp /\
    (forall p, p <> save_path o c -> lookup_file (files w') p = lookup_file (files w) p).
Proof.
  intros Hf Hp Hopt Ho Hw Hn Hc Hlen. rewrite create_image_missing by exact Hf.
  apply Nat.eqb_neq in Hp. rewrite Hp.
  assert (Hol : forall es es',
             open_image L (log (log w es) es') (absolute_src_path o c) = Some i)
    by (intros; exact Ho).
  unfold create_optimized_image. rewrite Hopt. cbv zeta. rewrite Hol, Hw.
  destruct (nested_write_ok w w1 (save_path o c) webp [EvAcquire; EvRelease]
              [EvTransformStart (save_path o c)] Hn Hc Hlen) as (w2 & E & Hf2).
  rewrite E. eexists; split; [reflexivity|]. cbn [files log]. rewrite Hf2.
  split; [apply lookup_update_file|].
  intros p Hne. now apply lookup_update_other.
Qed.

Lemma create_image_resize_artifact_witness :
  let c := resize_of "cat.png" in
  let w := demo_world 1000 1 in
  let r := {| r_width := 100; r_height := 100; r_quality := 75 |} in
  let w1 := snd (create_nested_if_needed w (save_path demo_optimizer c)) in
  file_exists w (save_path demo_optimizer c) = false /\ permits w <> 0 /\ opt c = OResize r /\
  open_image test_lib w (absolute_src_path demo_optimizer c) = Some "PNG-CAT" /\
  webp_encode test_lib (resize_image test_lib "PNG-CAT" (r_width r) (r_height r) CatmullRom)
    (r_quality r) = Some "PNG-CAT" /\
  create_nested_if_needed w (save_path demo_optimizer c) = (Ok tt, w1) /\
  create_fails w1 (save_path demo_optimizer c) = false /\
  String.length "PNG-CAT" <= free_space w /\
  exists w', create_image test_lib demo_optimizer c w = Some (Ok true, w') /\
    lookup_file (files w') (save_path demo_optimizer c) = Some "PNG-CAT" /\
    (forall p, p <> save_path demo_optimizer c ->
               lookup_file (files w') p = lookup_file (files w) p).
Proof.
  intros c w r w1.
  assert (H1 : file_exists w (save_path demo_optimizer c) = false) by (vm_compute; reflexivity).
  assert (H2 : permits w <> 0) by discriminate.
  assert (H3 : opt c = OResize r) by reflexivity.
  assert (H4 : open_image test_lib w (absolute_src_path demo_optimizer c) = Some "PNG-CAT")
    by (vm_compute; reflexivity).
  assert (H5 : webp_encode test_lib
                 (resize_image test_lib "PNG-CAT" (r_width r) (r_height r) CatmullRom)
                 (r_quality r) = Some "PNG-CAT") by reflexivity.
  assert (H6 : create_nested_if_needed w (save_path demo_optimizer c) = (Ok tt, w1))
    by (vm_compute; reflexivity).
  assert (H7 : create_fails w1 (save_path demo_optimizer c) = false)
    by (vm_compute; reflexivity).
  assert (H8 : String.length "PNG-CAT" <= free_space w) by (cbn; lia).
  split; [exact H1|]. split; [exact H2|]. split; [exact H3|]. split; [exact H4|].
  split; [exact H5|]. split; [exact H6|]. split; [exact H7|]. split; [exact H8|].
  exact (create_image_resize_artifact test_lib demo_optimizer c w r "PNG-CAT" "PNG-CAT" w1
           H1 H2 H3 H4 H5 H6 H7 H8).
Defined.

Lemma create_image_blur_artifact_aux L o c w b svg w1 :
  file_exists w (save_path o c) = false -> permits w <> 0 -> opt c = OBlur b ->
  create_image_blur L w (absolute_src_path o c) b = Some (Ok svg) ->
  create_nested_if_needed w (save_path o c) = (Ok tt, w1) ->
  create_fails w1 (save_path o c) = false ->
  String.length svg <= free_space w ->
  exists w', create_image L o c w = Some (Ok true, w') /\
    lookup_file (files w') (save_path o c) = Some svg /\
    (forall p, p <> save_path o c -> lookup_file (files w') p = lookup_file (files w) p).
Proof.
  intros Hf Hp Hopt Hb Hn Hc Hlen. rewrite create_image_missing by exact Hf.
  apply Nat.eqb_neq in Hp. rewrite Hp.
  assert (Hbl : forall es es',
             create_image_blur L (log (log w es) es') (absolute_src_path o c) b = Some (Ok svg))
    by (intros; exact Hb).
  unfold create_optimized_image. rewrite Hopt. cbv zeta. rewrite Hbl.
  destruct (nested_write_ok w w1 (save_path o c) svg [EvAcquire; EvRelease]
              [EvTransformStart (save_path o c)] Hn Hc Hlen) as (w2 & E & Hf2).
  rewrite E. eexists; split; [reflexivity|]. cbn [files log]. rewrite Hf2.
  split; [apply lookup_update_file|].
  intros p Hne. now apply lookup_update_other.
Qed.

(** X8: when nothing exists at the save path, a permit is free,
    [create_image_blur] succeeds, [create_nested_if_needed] makes the
    directories, the save path can be created as a file and the SVG fits
    on the disk, [create_image] on a [Blur] request returns [Ok(true)];
    the save path then holds exactly that SVG, and every other path is
    unchanged. *)
Theorem create_image_blur_artifact L o c w b svg w1 :
  file_exists w (save_path o c) = false -> permits w <> 0 -> opt c = OBlur b ->
  create_image_blur L w (absolute_src_path o c) b = Some (Ok svg) ->
  create_nested_if_needed w (save_path o c) = (Ok tt, w1) ->
  create_fails w1 (save_path o c) = false ->
  String.length svg <= free_space w ->
  exists w', create_image L o c w = Some (Ok true, w') /\
    lookup_file (files w') (save_path o c) = Some svg /\
    (forall p, p <> save_path o c -> lookup_file (files w') p = lookup_file (files w) p).
Proof. apply create_image_blur_artifact_aux. Qed.

Lemma create_image_blur_artifact_witness :
  let c := blur_of "cat.png" in
  let w := demo_world 4000 1 in
  let b := {| b_width := 20; b_height := 20; b_svg_width := 100; b_svg_height := 100;
              b_sigma := 15 |} in
  let svg := blur_svg 100 100 15 ("data:image/webp;base64," ++ b64_encode "PNG-CAT") in
  let w1 := snd (create_nested_if_needed w (save_path demo_optimizer c)) in
  file_exists w (save_path demo_optimizer c) = false /\ permits w <> 0 /\ opt c = OBlur b /\
  create_image_blur test_lib w (absolute_src_path demo_optimizer c) b = Some (Ok svg) /\
  create_nested_if_needed w (save_path demo_optimizer c) = (Ok tt, w1) /\
  create_fails w1 (save_path demo_optimizer c) = false /\
  String.length svg <= free_space w /\
  exists w', create_image test_lib demo_optimizer c w = Some (Ok true, w') /\
    lookup_file (files w') (save_path demo_optimizer c) = Some svg /\
    (forall p, p <> save_path demo_optimizer c ->
               lookup_file (files w') p = lookup_file (files w) p).
Proof.
  intros c w b svg w1.
  assert (H1 : file_exists w (save_path demo_optimizer c) = false) by (vm_compute; reflexivity).
  assert (H2 : permits w <> 0) by discriminate.
  assert (H3 : opt c = OBlur b) by reflexivity.
  assert (H4 : create_image_blur test_lib w (absolute_src_path demo_optimizer c) b
               = Some (Ok svg)) by (vm_compute; reflexivity).
  assert (H5 : create_nested_if_needed w (save_path demo_optimizer c) = (Ok tt, w1))
    by (vm_compute; reflexivity).
  assert (H6 : create_fails w1 (save_path demo_optimizer c) = false)
    by (vm_compute; reflexivity).
  assert (H7 : String.length svg <= free_space w)
    by (apply Nat.leb_le; vm_compute; reflexivity).
  split; [exact H1|]. split; [exact H2|]. split; [exact H3|]. split; [exact H4|].
  split; [exact H5|]. split; [exact H6|]. split; [exact H7|].
  exact (create_image_blur_artifact test_lib demo_optimizer c w b svg w1 H1 H2 H3 H4 H5 H6 H7).
Defined.

(** X9: [file_exists] is [metadata(path).is_ok()], so a directory at the
    save path (an empty one made earlier, or one with entries below it)
    counts as an existing artifact: [create_image] returns [Ok(false)]
    and changes nothing.  Writing the artifact there could not succeed
    either: [std::fs::write] on a directory fails and writes nothing. *)
Theorem create_image_directory_at_save_path L o c w :
  is_dir w (save_path o c) = true ->
  create_image L o c w = Some (Ok false, w) /\
  (forall data, fs_write w (save_path o c) data = (Err IOError, w)).
Proof.
  intros Hd. split.
  - apply create_image_cached. unfold file_exists. now rewrite Hd, orb_true_r.
  - intros data. unfold fs_write, create_fails. now rewrite Hd, !orb_true_r.
Qed.

Lemma create_image_directory_at_save_path_witness :
  let c := resize_of "cat.png" in
  let w := {| files := []; dirs := [save_path demo_optimizer c]; free_space := 1000;
              permits := 1; events := []; denied := fun _ => false |} in
  is_dir w (save_path demo_optimizer c) = true /\
  create_image test_lib demo_optimizer c w = Some (Ok false, w) /\
  (forall data, fs_write w (save_path demo_optimizer c) data = (Err IOError, w)).
Proof.
  intros c w.
  assert (H : is_dir w (save_path demo_optimizer c) = true) by (vm_compute; reflexivity).
  split; [exact H|].
  exact (create_image_directory_at_save_path test_lib demo_optimizer c w H).
Defined.

(** ** Route introspection *)

(** X10: every request [find_app_images_from_paths] returns comes from an
    [<Image/>] rendered on one of the paths whose source does not start
    with ["http"]: it is either the [Resize] request with that image's
    width, height and quality, or, when the image has [blur], the [Blur]
    request with the fixed parameters 20x20, SVG 100x100, sigma 15. *)
Theorem find_app_images_sources app_view paths x :
  In x (find_app_images_from_paths app_view paths) ->
  exists path p, In path paths /\ In p (app_view ("http://leptos.dev" ++ path)) /\
    starts_with "http" (p_src p) = false /\ src x = p_src p /\
    (opt x = OResize {| r_width := p_width p; r_height := p_height p;
                        r_quality := p_quality p |}
     \/ (p_blur p = true /\
         opt x = OBlur {| b_width := 20; b_height := 20; b_svg_width := 100;
                          b_svg_height := 100; b_sigma := 15 |})).
Proof.
  unfold find_app_images_from_paths. rewrite images_from_paths_spec.
  intros Hx. apply in_flat_map in Hx as (path & Hpath & Hx).
  apply in_flat_map in Hx as (p & Hp & Hx).
  exists path, p. split; [exact Hpath|]. split; [exact Hp|].
  unfold image_requests in Hx.
  destruct (starts_with "http" (p_src p)) eqn:Eh; [destruct Hx|].
  split; [reflexivity|].
  destruct Hx as [<-|Hx]; [split; [reflexivity|now left]|].
  destruct (p_blur p) eqn:Eb; [|destruct Hx].
  destruct Hx as [<-|[]]. split; [reflexivity|]. right; split; reflexivity.
Qed.

Lemma find_app_images_sources_witness :
  In (blur_of "cat.png") (find_app_images_from_paths blurred_cat_app ["/"]) /\
  exists path p, In path ["/"] /\ In p (blurred_cat_app ("http://leptos.dev" ++ path)) /\
    starts_with "http" (p_src p) = false /\ src (blur_of "cat.png") = p_src p /\
    (opt (blur_of "cat.png")
     = OResize {| r_width := p_width p; r_height := p_height p; r_quality := p_quality p |}
     \/ (p_blur p = true /\
         opt (blur_of "cat.png")
         = OBlur {| b_width := 20; b_height := 20; b_svg_width := 100;
                    b_svg_height := 100; b_sigma := 15 |})).
Proof.
  assert (H : In (blur_of "cat.png") (find_app_images_from_paths blurred_cat_app ["/"]))
    by (vm_compute; right; left; reflexivity).
  split; [exact H|]. exact (find_app_images_sources blurred_cat_app ["/"] _ H).
Defined.

(** ** The in-memory blur cache *)

Lemma resize_eqb_true a b : resize_eqb a b = true <-> a = b.
Proof.
  destruct a as [x1 x2 x3], b as [y1 y2 y3]; unfold resize_eqb; cbn.
  rewrite !andb_true_iff, !N.eqb_eq.
  split; [intros [[-> ->] ->]; reflexivity|intros H; injection H as -> -> ->; auto].
Qed.

Lemma blur_eqb_true a b : blur_eqb a b = true <-> a = b.
Proof.
  destruct a as [x1 x2 x3 x4 x5], b as [y1 y2 y3 y4 y5]; unfold blur_eqb; cbn.
  rewrite !andb_true_iff, !N.eqb_eq.
  split; [intros [[[[-> ->] ->] ->] ->]; reflexivity
         |intros H; injection H as -> -> -> -> ->; repeat split].
Qed.

Lemma option_eqb_true a b : option_eqb a b = true <-> a = b.
Proof.
  destruct a as [x|x], b as [y|y]; cbn; try (split; discriminate).
  - rewrite resize_eqb_true. split; [intros ->; reflexivity|intros H; now injection H].
  - rewrite blur_eqb_true. split; [intros ->; reflexivity|intros H; now injection H].
Qed.

Lemma cached_image_eqb_true a b : cached_image_eqb a b = true <-> a = b.
Proof.
  destruct a as [sa oa], b as [sb ob]; unfold cached_image_eqb; cbn.
  rewrite andb_true_iff, String.eqb_eq, option_eqb_true.
  split; [intros [-> ->]; reflexivity|intros H; now injection H as -> ->].
Qed.

Lemma cached_image_eqb_refl a : cached_image_eqb a a = true.
Proof. now apply cached_image_eqb_true. Qed.

Lemma cache_get_insert m k v k' :
  cache_get (cache_insert m k v) k' = if cached_image_eqb k k' then Some v else cache_get m k'.
Proof.
  unfold cache_insert. cbn [cache_get].
  destruct (cached_image_eqb k k') eqn:E; [reflexivity|].
  induction m as [|[k2 v2] m IH]; [reflexivity|]. cbn [filter].
  destruct (cached_image_eqb k2 k) eqn:E2; cbn [negb cache_get].
  - apply cached_image_eqb_true in E2; subst k2. rewrite E. exact IH.
  - destruct (cached_image_eqb k2 k'); [reflexivity|exact IH].
Qed.

Lemma add_image_cache_preserves o w cache imgs k v :
  cache_get cache k = Some v -> cache_get (add_image_cache o w cache imgs) k = Some v.
Proof.
  revert cache; induction imgs as [|i rest IH]; intros cache H; cbn [add_image_cache];
    [exact H|].
  destruct (is_blur i && match cache_get cache i with None => true | Some _ => false end)
    eqn:G; [|now apply IH].
  destruct (read_to_string w (get_file_path_from_root o i)) as [data|]; apply IH; [|exact H].
  rewrite cache_get_insert. destruct (cached_image_eqb i k) eqn:E; [|exact H].
  apply cached_image_eqb_true in E; subst i. rewrite H, andb_false_r in G. discriminate.
Qed.

(** X11: [add_image_cache] never changes an entry already in the cache:
    an image cached before keeps its SVG text. *)
Theorem add_image_cache_keeps_entries o w cache imgs k v :
  cache_get cache k = Some v -> cache_get (add_image_cache o w cache imgs) k = Some v.
Proof. apply add_image_cache_preserves. Qed.

(** X12: every entry [add_image_cache] adds is one of the given images, a
    [Blur] request, whose text is exactly the UTF-8 content of the file at
    [get_file_path_from_root]; [Resize] requests and unreadable files add
    nothing. *)
Theorem add_image_cache_sound o w cache imgs k v :
  cache_get (add_image_cache o w cache imgs) k = Some v ->
  cache_get cache k = Some v \/
  (In k imgs /\ is_blur k = true /\ read_to_string w (get_file_path_from_root o k) = Some v).
Proof.
  revert cache; induction imgs as [|i rest IH]; intros cache H; cbn [add_image_cache] in H;
    [now left|].
  destruct (is_blur i && match cache_get cache i with None => true | Some _ => false end)
    eqn:G.
  - apply andb_true_iff in G as [Gb _].
    destruct (read_to_string w (get_file_path_from_root o i)) as [data|] eqn:R.
    + apply IH in H as [H|(Hin & Hb & Hr)].
      * rewrite cache_get_insert in H. destruct (cached_image_eqb i k) eqn:E; [|now left].
        apply cached_image_eqb_true in E; subst i. injection H as <-.
        right. split; [now left|]. split; assumption.
      * right. split; [now right|]. split; assumption.
    + apply IH in H as [H|(Hin & Hb & Hr)]; [now left|].
      right. split; [now right|]. split; assumption.
  - apply IH in H as [H|(Hin & Hb & Hr)]; [now left|].
    right. split; [now right|]. split; assumption.
Qed.

Lemma add_image_cache_complete_aux o w cache imgs k v :
  In k imgs -> is_blur k = true -> cache_get cache k = None ->
  read_to_string w (get_file_path_from_root o k) = Some v ->
  cache_get (add_image_cache o w cache imgs) k = Some v.
Proof.
  revert cache; induction imgs as [|i rest IH]; intros cache Hin Hb Hn Hr; [destruct Hin|].
  cbn [add_image_cache].
  destruct (cached_image_eqb i k) eqn:E.
  - apply cached_image_eqb_true in E; subst i. rewrite Hb, Hn. cbn [andb]. rewrite Hr.
    apply add_image_cache_preserves. rewrite cache_get_insert, cached_image_eqb_refl.
    reflexivity.
  - destruct Hin as [->|Hin]; [rewrite cached_image_eqb_refl in E; discriminate|].
    destruct (is_blur i && match cache_get cache i with None => true | Some _ => false end);
      [destruct (read_to_string w (get_file_path_from_root o i)) as [data|]|];
      apply IH; try assumption.
    rewrite cache_get_insert, E. exact Hn.
Qed.

(** X13: every [Blur] request among the given images that is not cached
    yet and whose file at [get_file_path_from_root] reads as UTF-8 text
    is cached with that text, whatever the order and repetitions of the
    images. *)
Theorem add_image_cache_complete o w cache imgs k v :
  In k imgs -> is_blur k = true -> cache_get cache k = None ->
  read_to_string w (get_file_path_from_root o k) = Some v ->
  cache_get (add_image_cache o w cache imgs) k = Some v.
Proof. apply add_image_cache_complete_aux. Qed.

Lemma add_image_cache_keeps_entries_witness :
  let c := blur_of "cat.png" in
  let w := {| files := [(get_file_path_from_root demo_optimizer c, "<svg/>")];
              dirs := []; free_space := 0; permits := 1; events := [];
              denied := fun _ => false |} in
  cache_get [(c, "<svg old/>")] c = Some "<svg old/>" /\
  cache_get (add_image_cache demo_optimizer w [(c, "<svg old/>")] [c; c]) c = Some "<svg old/>".
Proof.
  intros c w.
  assert (H : cache_get [(c, "<svg old/>")] c = Some "<svg old/>") by (vm_compute; reflexivity).
  split; [exact H|].
  exact (add_image_cache_keeps_entries demo_optimizer w _ [c; c] c _ H).
Defined.

Lemma add_image_cache_sound_witness :
  let c := blur_of "cat.png" in
  let w := {| files := [(get_file_path_from_root demo_optimizer c, "<svg/>")];
              dirs := []; free_space := 0; permits := 1; events := [];
              denied := fun _ => false |} in
  let imgs := [resize_of "cat.png"; c] in
  cache_get (add_image_cache demo_optimizer w [] imgs) c = Some "<svg/>" /\
  (cache_get [] c = Some "<svg/>" \/
   (In c imgs /\ is_blur c = true
    /\ read_to_string w (get_file_path_from_root demo_optimizer c) = Some "<svg/>")).
Proof.
  intros c w imgs.
  assert (H : cache_get (add_image_cache demo_optimizer w [] imgs) c = Some "<svg/>")
    by (vm_compute; reflexivity).
  split; [exact H|]. exact (add_image_cache_sound demo_optimizer w [] imgs c _ H).
Defined.

Lemma add_image_cache_complete_witness :
  let c := blur_of "cat.png" in
  let w := {| files := [(get_file_path_from_root demo_optimizer c, "<svg/>")];
              dirs := []; free_space := 0; permits := 1; events := [];
              denied := fun _ => false |} in
  let imgs := [resize_of "cat.png"; c; c] in
  In c imgs /\ is_blur c = true /\ cache_get [] c = None /\
  read_to_string w (get_file_path_from_root demo_optimizer c) = Some "<svg/>" /\
  cache_get (add_image_cache demo_optimizer w [] imgs) c = Some "<svg/>".
Proof.
  intros c w imgs.
  assert (H1 : In c imgs) by (right; left; reflexivity).
  assert (H2 : is_blur c = true) by reflexivity.
  assert (H3 : cache_get [] c = None) by reflexivity.
  assert (H4 : read_to_string w (get_file_path_from_root demo_optimizer c) = Some "<svg/>")
    by (vm_compute; reflexivity).
  split; [exact H1|]. split; [exact H2|]. split; [exact H3|]. split; [exact H4|].
  exact (add_image_cache_complete demo_optimizer w [] imgs c _ H1 H2 H3 H4).
Defined.

(** ** From the store to the cache *)

Lemma b64_char_ascii n : (byte (b64_char n) <? 128)%N = true.
Proof.
  unfold b64_char, byte.
  destruct (n <? 26)%N eqn:E1;
    [|destruct (n <? 52)%N eqn:E2;
      [|destruct (n <? 62)%N eqn:E3; [|destruct (n =? 62)%N; reflexivity]]].
  - apply N.ltb_lt in E1. rewrite N_ascii_embedding by lia. apply N.ltb_lt; lia.
  - apply N.ltb_lt in E2. rewrite N_ascii_embedding by lia. apply N.ltb_lt; lia.
  - apply N.ltb_lt in E3. rewrite N_ascii_embedding by lia. apply N.ltb_lt; lia.
Qed.

Lemma b64_encode_ascii s : forall_chars (fun c => (byte c <? 128)%N) (b64_encode s) = true.
Proof.
  revert s. fix IH 1. intros [|a [|b [|c r]]].
  - reflexivity.
  - cbn [b64_encode forall_chars]. rewrite !b64_char_ascii. reflexivity.
  - cbn [b64_encode forall_chars]. rewrite !b64_char_ascii. reflexivity.
  - cbn [b64_encode forall_chars]. rewrite !b64_char_ascii. cbn [andb]. apply IH.
Qed.

Lemma to_dec_ascii n : forall_chars (fun c => (byte c <? 128)%N) (to_dec n) = true.
Proof.
  apply (forall_chars_impl is_digit); [|apply to_dec_digits].
  intros c Hc. apply digit_qs_value_char in Hc. unfold qs_value_char in Hc.
  apply andb_true_iff in Hc as [Hc _]. apply andb_true_iff in Hc as [Hc _].
  now apply b64_safe_ascii.
Qed.

Lemma blur_svg_ascii sw sh sg uri :
  forall_chars (fun c => (byte c <? 128)%N) uri = true ->
  forall_chars (fun c => (byte c <? 128)%N) (blur_svg sw sh sg uri) = true.
Proof.
  intros Hu. unfold blur_svg, join. cbn [String.concat].
  rewrite !forall_chars_app, !to_dec_ascii, Hu. reflexivity.
Qed.

Lemma create_image_blur_ascii L w p b svg :
  create_image_blur L w p b = Some (Ok svg) ->
  forall_chars (fun c => (byte c <? 128)%N) svg = true.
Proof.
  unfold create_image_blur. destruct (open_image L w p); [|discriminate].
  destruct (webp_encode L _ 80); [|discriminate]. intros H; injection H as <-.
  apply blur_svg_ascii. cbn [forall_chars]. rewrite b64_encode_ascii. reflexivity.
Qed.

(** X14: a [Blur] artifact that [create_image] has just created is read
    back by [add_image_cache]: called on that request with a cache that
    does not hold it yet, it caches exactly the SVG text of the artifact
    (the SVG is ASCII, so it reads as UTF-8).  The artifact is created
    under the conditions of X8. *)
Theorem created_blur_artifact_cached L o c w b svg w1 cache :
  file_exists w (save_path o c) = false -> permits w <> 0 -> opt c = OBlur b ->
  create_image_blur L w (absolute_src_path o c) b = Some (Ok svg) ->
  create_nested_if_needed w (save_path o c) = (Ok tt, w1) ->
  create_fails w1 (save_path o c) = false ->
  String.length svg <= free_space w ->
  cache_get cache c = None ->
  exists w', create_image L o c w = Some (Ok true, w') /\
    cache_get (add_image_cache o w' cache [c]) c = Some svg.
Proof.
  intros Hf Hp Hopt Hb Hnd Hc Hlen Hn.
  destruct (create_image_blur_artifact_aux L o c w b svg w1 Hf Hp Hopt Hb Hnd Hc Hlen)
    as (w' & Hci & Hl & _).
  exists w'. split; [exact Hci|].
  apply add_image_cache_complete_aux; [now left|unfold is_blur; now rewrite Hopt|exact Hn|].
  change (get_file_path_from_root o c) with (save_path o c).
  unfold read_to_string. rewrite Hl. cbn [obind]. unfold from_utf8.
  rewrite utf8_valid_ascii by (eapply create_image_blur_ascii; exact Hb). reflexivity.
Qed.

Lemma created_blur_artifact_cached_witness :
  let c := blur_of "cat.png" in
  let w := demo_world 4000 1 in
  let b := {| b_width := 20; b_height := 20; b_svg_width := 100; b_svg_height := 100;
              b_sigma := 15 |} in
  let svg := blur_svg 100 100 15 ("data:image/webp;base64," ++ b64_encode "PNG-CAT") in
  let w1 := snd (create_nested_if_needed w (save_path demo_optimizer c)) in
  file_exists w (save_path demo_optimizer c) = false /\ permits w <> 0 /\ opt c = OBlur b /\
  create_image_blur test_lib w (absolute_src_path demo_optimizer c) b = Some (Ok svg) /\
  create_nested_if_needed w (save_path demo_optimizer c) = (Ok tt, w1) /\
  create_fails w1 (save_path demo_optimizer c) = false /\
  String.length svg <= free_space w /\ cache_get [] c = None /\
  exists w', create_image test_lib demo_optimizer c w = Some (Ok true, w') /\
    cache_get (add_image_cache demo_optimizer w' [] [c]) c = Some svg.
Proof.
  intros c w b svg w1.
  assert (H1 : file_exists w (save_path demo_optimizer c) = false) by (vm_compute; reflexivity).
  assert (H2 : permits w <> 0) by discriminate.
  assert (H3 : opt c = OBlur b) by reflexivity.
  assert (H4 : create_image_blur test_lib w (absolute_src_path demo_optimizer c) b
               = Some (Ok svg)) by (vm_compute; reflexivity).
  assert (H5 : create_nested_if_needed w (save_path demo_optimizer c) = (Ok tt, w1))
    by (vm_compute; reflexivity).
  assert (H6 : create_fails w1 (save_path demo_optimizer c) = false)
    by (vm_compute; reflexivity).
  assert (H7 : String.length svg <= free_space w)
    by (apply Nat.leb_le; vm_compute; reflexivity).
  assert (H8 : cache_get [] c = None) by reflexivity.
  split; [exact H1|]. split; [exact H2|]. split; [exact H3|]. split; [exact H4|].
  split; [exact H5|]. split; [exact H6|]. split; [exact H7|]. split; [exact H8|].
  exact (created_blur_artifact_cached test_lib demo_optimizer c w b svg w1 [] H1 H2 H3 H4 H5
           H6 H7 H8).
Defined.

(** ** Concurrent calls on the same request *)

(** X15: nothing deduplicates concurrent [create_image] calls for the same
    request: when its artifact does not exist and a permit is free, two
    calls can both pass the [file_exists] check and both have the
    transform of that artifact running at the same time, on the same save
    path. *)
Theorem create_image_same_request_race L o c w :
  file_exists w (save_path o c) = false -> permits w <> 0 ->
  exists w', creachable L o (w, [TEntry c; TEntry c])
               (w', [TRunning c (save_path o c) (absolute_src_path o c);
                     TRunning c (save_path o c) (absolute_src_path o c)])
             /\ running_count [TRunning c (save_path o c) (absolute_src_path o c);
                               TRunning c (save_path o c) (absolute_src_path o c)] = 2.
Proof.
  intros Hf Hp. eexists. split; [|reflexivity].
  eapply CTrans.
  { eapply (CStep _ _ _ _ 0); [reflexivity|]. rewrite step_entry, Hf. reflexivity. }
  eapply CTrans.
  { eapply (CStep _ _ _ _ 1); [reflexivity|]. rewrite step_entry, Hf. reflexivity. }
  eapply CTrans.
  { eapply (CStep _ _ _ _ 0); [reflexivity|]. rewrite step_acquire by exact Hp. reflexivity. }
  eapply CTrans.
  { eapply (CStep _ _ _ _ 1); [reflexivity|].
    rewrite step_acquire by (cbn; exact Hp). reflexivity. }
  eapply CTrans.
  { eapply (CStep _ _ _ _ 0); [reflexivity|]. apply step_spawn. }
  eapply CTrans.
  { eapply (CStep _ _ _ _ 1); [reflexivity|]. apply step_spawn. }
  apply CRefl.
Qed.

Lemma create_image_same_request_race_witness :
  let c := resize_of "cat.png" in
  let w := demo_world 1000 1 in
  file_exists w (save_path demo_optimizer c) = false /\ permits w <> 0 /\
  exists w', creachable test_lib demo_optimizer (w, [TEntry c; TEntry c])
               (w', [TRunning c (save_path demo_optimizer c) (absolute_src_path demo_optimizer c);
                     TRunning c (save_path demo_optimizer c) (absolute_src_path demo_optimizer c)])
             /\ running_count
                  [TRunning c (save_path demo_optimizer c) (absolute_src_path demo_optimizer c);
                   TRunning c (save_path demo_optimizer c) (absolute_src_path demo_optimizer c)]
                = 2.
Proof.
  intros c w.
  assert (H1 : file_exists w (save_path demo_optimizer c) = false) by (vm_compute; reflexivity).
  assert (H2 : permits w <> 0) by discriminate.
  split; [exact H1|]. split; [exact H2|].
  exact (create_image_same_request_race test_lib demo_optimizer c w H1 H2).
Defined.
